(** * Streaming generation gateway of M10C-Video-Summary

    A shallow embedding of the background script (the provider adapters,
    [BackgroundAIService.streamAI], [formatSubtitlesForAI] and the
    [AI_STREAM] port handler) together with the properties its
    specification states about them.

    JavaScript strings are sequences of UTF-16 code units, bytes are
    integers in [0, 256), and the promises the code awaits are settled by
    the environment, one reply per suspension point. *)

From Stdlib Require Import ZArith List Bool Lia String Ascii.
Import ListNotations.
Open Scope Z_scope.

(** ** JavaScript strings *)

Definition jsstring := list Z.

Module JS.

(** [s === t] on strings. *)
Fixpoint eqb (s t : jsstring) : bool :=
  match s, t with
  | [], [] => true
  | a :: s', b :: t' => (a =? b) && eqb s' t'
  | _, _ => false
  end.

(** [WhiteSpace] and [LineTerminator] of ECMA-262: what [trim] strips and
    what the regular expression class [\s] matches. *)
Definition isWhiteSpace (c : Z) : bool :=
  ((9 <=? c) && (c <=? 13)) || (c =? 32) || (c =? 160) || (c =? 5760)
  || ((8192 <=? c) && (c <=? 8202)) || (c =? 8232) || (c =? 8233)
  || (c =? 8239) || (c =? 8287) || (c =? 12288) || (c =? 65279).

Fixpoint trimStart (s : jsstring) : jsstring :=
  match s with
  | c :: s' => if isWhiteSpace c then trimStart s' else s
  | [] => []
  end.

Definition trimEnd (s : jsstring) : jsstring := rev (trimStart (rev s)).

Definition trim (s : jsstring) : jsstring := trimEnd (trimStart s).

Fixpoint startsWith (s prefix : jsstring) {struct prefix} : bool :=
  match prefix, s with
  | [], _ => true
  | p :: prefix', c :: s' => (c =? p) && startsWith s' prefix'
  | _ :: _, [] => false
  end.

(** [s.slice(n)] for [0 <= n]. *)
Definition slice (n : nat) (s : jsstring) : jsstring := skipn n s.

(** [s.substring(0, n)]; a negative [n] counts as 0. *)
Definition substring0 (n : Z) (s : jsstring) : jsstring :=
  firstn (Z.to_nat n) s.

Definition length (s : jsstring) : Z := Z.of_nat (List.length s).

(** [s.split("\n")], scanning left to right with the line being read in
    [cur]; the result is never empty. *)
Fixpoint split_from (cur : jsstring) (s : jsstring) : list jsstring :=
  match s with
  | [] => [cur]
  | c :: s' =>
      if c =? 10 then cur :: split_from [] s'
      else split_from (cur ++ [c]) s'
  end.

Definition split_nl (s : jsstring) : list jsstring := split_from [] s.

(** [parts.join(" ")]. *)
Fixpoint join_sp (parts : list jsstring) : jsstring :=
  match parts with
  | [] => []
  | [p] => p
  | p :: rest => p ++ 32 :: join_sp rest
  end.

(** [s.replace(/\s+/g, " ")]: every maximal run of white space becomes
    one space. [in_run] tells that the previous code unit was white
    space, already replaced. *)
Fixpoint collapse_from (in_run : bool) (s : jsstring) : jsstring :=
  match s with
  | [] => []
  | c :: s' =>
      if isWhiteSpace c
      then (if in_run then collapse_from true s'
            else 32 :: collapse_from true s')
      else c :: collapse_from false s'
  end.

Definition collapseWhiteSpace (s : jsstring) : jsstring :=
  collapse_from false s.

(** [s.lastIndexOf(c)] for a search string of one code unit: the index
    of the last occurrence, or -1. *)
Fixpoint lastIndexOf_from (i : Z) (found : Z) (c : Z) (s : jsstring) : Z :=
  match s with
  | [] => found
  | d :: s' => lastIndexOf_from (i + 1) (if d =? c then i else found) c s'
  end.

Definition lastIndexOf (c : Z) (s : jsstring) : Z :=
  lastIndexOf_from 0 (-1) c s.

(** [obj[name]] on an object given by its own properties; of two
    members with one name the later counts. [None] is [undefined]. *)
Fixpoint own {A : Type} (name : jsstring) (members : list (jsstring * A))
  : option A :=
  match members with
  | [] => None
  | (k, v) :: rest =>
      match own name rest with
      | Some later => Some later
      | None => if eqb k name then Some v else None
      end
  end.

(** Decimal digits of a non-negative integer, as [String(n)] prints it. *)
Fixpoint digits_from (fuel : nat) (n : Z) (acc : jsstring) : jsstring :=
  match fuel with
  | O => acc
  | S fuel' =>
      let acc' := (48 + n mod 10) :: acc in
      if n <? 10 then acc' else digits_from fuel' (n / 10) acc'
  end.

Definition ofNat (n : Z) : jsstring :=
  digits_from (S (Z.to_nat (Z.log2 n))) n [].

End JS.

(** ** TextDecoder

    [new TextDecoder()] decodes UTF-8 and drops a leading byte order mark.
    The source calls [decode(value, { stream: true })] only, so the decoder
    keeps its state between calls and is never flushed. The state and the
    byte handler are those of the UTF-8 decoder of the Encoding Standard. *)

Module TextDecoder.

Record state := mkState {
  code_point : Z;
  bytes_seen : Z;
  bytes_needed : Z;
  lower_boundary : Z;
  upper_boundary : Z;
  bom_seen : bool
}.

Definition init : state := mkState 0 0 0 128 191 false.

Definition reset (s : state) : state := mkState 0 0 0 128 191 (bom_seen s).

(** A byte read while no sequence is open. *)
Definition lead (s : state) (b : Z) : state * list Z :=
  if b <=? 127 then (s, [b])
  else if (194 <=? b) && (b <=? 223) then
    (mkState (Z.land b 31) 0 1 128 191 (bom_seen s), [])
  else if (224 <=? b) && (b <=? 239) then
    (mkState (Z.land b 15) 0 2
       (if b =? 224 then 160 else 128)
       (if b =? 237 then 159 else 191) (bom_seen s), [])
  else if (240 <=? b) && (b <=? 244) then
    (mkState (Z.land b 7) 0 3
       (if b =? 240 then 144 else 128)
       (if b =? 244 then 143 else 191) (bom_seen s), [])
  else (s, [65533]).

(** One byte through the handler; the result is the code points it
    completes. A byte that cannot continue the open sequence yields
    U+FFFD and is read again as a lead byte. *)
Definition handler (s : state) (b : Z) : state * list Z :=
  if bytes_needed s =? 0 then lead s b
  else if (b <? lower_boundary s) || (upper_boundary s <? b) then
    let (s', out) := lead (reset s) b in (s', 65533 :: out)
  else
    let cp := Z.lor (Z.shiftl (code_point s) 6) (Z.land b 63) in
    if bytes_seen s + 1 =? bytes_needed s then (reset s, [cp])
    else (mkState cp (bytes_seen s + 1) (bytes_needed s) 128 191
            (bom_seen s), []).

(** The first code point of the stream is dropped when it is U+FEFF. *)
Fixpoint strip_bom (seen : bool) (cps : list Z) : bool * list Z :=
  match cps with
  | [] => (seen, [])
  | cp :: rest =>
      if seen then (true, cps)
      else if cp =? 65279 then strip_bom true rest
      else (true, cps)
  end.

(** A code point as UTF-16 code units. *)
Definition utf16 (cp : Z) : jsstring :=
  if cp <? 65536 then [cp]
  else [55296 + Z.shiftr (cp - 65536) 10; 56320 + Z.land (cp - 65536) 1023].

Definition step (s : state) (b : Z) : state * jsstring :=
  let (s1, cps) := handler s b in
  let (seen, cps') := strip_bom (bom_seen s1) cps in
  (mkState (code_point s1) (bytes_seen s1) (bytes_needed s1)
     (lower_boundary s1) (upper_boundary s1) seen,
   flat_map utf16 cps').

(** [decoder.decode(value, { stream: true })]. *)
Fixpoint decode (s : state) (value : list Z) : state * jsstring :=
  match value with
  | [] => (s, [])
  | b :: value' =>
      let (s1, out1) := step s b in
      let (s2, out2) := decode s1 value' in
      (s2, out1 ++ out2)
  end.

End TextDecoder.

(** The bytes of a source literal and the JavaScript string they spell. *)
Definition bytes (s : string) : list Z :=
  map (fun a => Z.of_N (N_of_ascii a)) (list_ascii_of_string s).

Definition js (s : string) : jsstring :=
  snd (TextDecoder.decode TextDecoder.init (bytes s)).

(** The same for a literal that writes ['] for the double quote. *)
Definition qbytes (s : string) : list Z :=
  map (fun b => if b =? 39 then 34 else b) (bytes s).

Definition qjs (s : string) : jsstring :=
  snd (TextDecoder.decode TextDecoder.init (qbytes s)).

Arguments bytes : simpl never.
Arguments js : simpl never.
Arguments qbytes : simpl never.
Arguments qjs : simpl never.

(** ** JSON values and [JSON.parse]

    The values [JSON.parse] builds and the grammar it accepts, after
    ECMA-404 and the [JSON] object of ECMA-262. *)

Module JSON.

(** A number is kept as the decimal it was written as: [JNumber m e] is
    [m * 10^e]. *)
#[warnings="-register-all"]
Inductive json :=
| JNull
| JBool (b : bool)
| JNumber (m e : Z)
| JString (s : jsstring)
| JArray (items : list json)
| JObject (members : list (jsstring * json)).

(** Whether the double nearest to [m * 10^e] is not zero: a decimal
    rounds to zero exactly when it is at most [2^-1075], half of the
    least positive double. *)
Definition number_truthy (m e : Z) : bool :=
  if m =? 0 then false
  else if 0 <=? e then true
  else negb (Z.abs m * 2 ^ 1075 <=? 10 ^ (- e)).

(** [ToBoolean] on a parsed value. *)
Definition truthy (v : json) : bool :=
  match v with
  | JNull => false
  | JBool b => b
  | JNumber m e => number_truthy m e
  | JString s => negb (JS.eqb s [])
  | JArray _ | JObject _ => true
  end.

(** *** The parser *)

Definition is_ws (c : Z) : bool :=
  (c =? 32) || (c =? 9) || (c =? 10) || (c =? 13).

Fixpoint skip_ws (s : jsstring) : jsstring :=
  match s with
  | c :: s' => if is_ws c then skip_ws s' else s
  | [] => []
  end.

Definition is_digit (c : Z) : bool := (48 <=? c) && (c <=? 57).

Definition hex_digit (c : Z) : option Z :=
  if is_digit c then Some (c - 48)
  else if (97 <=? c) && (c <=? 102) then Some (c - 87)
  else if (65 <=? c) && (c <=? 70) then Some (c - 55)
  else None.

Definition hex4 (a b c d : Z) : option Z :=
  match hex_digit a, hex_digit b, hex_digit c, hex_digit d with
  | Some x, Some y, Some z, Some w => Some (((x * 16 + y) * 16 + z) * 16 + w)
  | _, _, _, _ => None
  end.

Definition escape (c : Z) : option Z :=
  if c =? 34 then Some 34 else if c =? 92 then Some 92
  else if c =? 47 then Some 47 else if c =? 98 then Some 8
  else if c =? 102 then Some 12 else if c =? 110 then Some 10
  else if c =? 114 then Some 13 else if c =? 116 then Some 9
  else None.

(** The characters of a string after its opening quote. *)
Fixpoint parse_chars (s : jsstring) (acc : jsstring)
  : option (jsstring * jsstring) :=
  match s with
  | [] => None
  | c :: s' =>
      if c =? 34 then Some (acc, s')
      else if c =? 92 then
        match s' with
        | e :: s'' =>
            if e =? 117 then
              match s'' with
              | h1 :: h2 :: h3 :: h4 :: s3 =>
                  match hex4 h1 h2 h3 h4 with
                  | Some u => parse_chars s3 (acc ++ [u])
                  | None => None
                  end
              | _ => None
              end
            else
              match escape e with
              | Some u => parse_chars s'' (acc ++ [u])
              | None => None
              end
        | [] => None
        end
      else if c <? 32 then None
      else parse_chars s' (acc ++ [c])
  end.

(** The longest run of digits at the head of [s]: its value, its length
    and what follows. *)
Fixpoint take_digits (s : jsstring) (val len : Z) : Z * Z * jsstring :=
  match s with
  | c :: s' =>
      if is_digit c then take_digits s' (val * 10 + (c - 48)) (len + 1)
      else (val, len, s)
  | [] => (val, len, s)
  end.

Definition parse_exponent (s : jsstring) : option (Z * jsstring) :=
  match s with
  | c :: s1 =>
      if (c =? 101) || (c =? 69) then
        let '(neg, s2) :=
          match s1 with
          | d :: s2 =>
              if d =? 45 then (true, s2)
              else if d =? 43 then (false, s2) else (false, s1)
          | [] => (false, s1)
          end in
        let '(v, n, s3) := take_digits s2 0 0 in
        if n =? 0 then None else Some (if neg then - v else v, s3)
      else Some (0, s)
  | [] => Some (0, s)
  end.

Definition parse_fraction (s : jsstring) (int : Z)
  : option (Z * Z * jsstring) :=
  match s with
  | c :: s1 =>
      if c =? 46 then
        let '(v, n, s2) := take_digits s1 int 0 in
        if n =? 0 then None else Some (v, n, s2)
      else Some (int, 0, s)
  | [] => Some (int, 0, s)
  end.

(** A number whose first character after the optional minus is in [s]. *)
Definition parse_number (neg : bool) (s : jsstring)
  : option (json * jsstring) :=
  match s with
  | c :: s1 =>
      if is_digit c then
        let '(int, _, s2) :=
          if c =? 48 then (0, 1, s1) else take_digits s 0 0 in
        match parse_fraction s2 int with
        | Some (m, places, s3) =>
            match parse_exponent s3 with
            | Some (e, s4) =>
                Some (JNumber (if neg then - m else m) (e - places), s4)
            | None => None
            end
        | None => None
        end
      else None
  | [] => None
  end.

Definition lit_true : jsstring := Eval cbv in js "true".
Definition lit_false : jsstring := Eval cbv in js "false".
Definition lit_null : jsstring := Eval cbv in js "null".

Fixpoint parse_value (fuel : nat) (s : jsstring)
  : option (json * jsstring) :=
  match fuel with
  | O => None
  | S fuel' =>
      match skip_ws s with
      | [] => None
      | c :: r =>
          if c =? 123 then
            match skip_ws r with
            | d :: r' =>
                if d =? 125 then Some (JObject [], r')
                else parse_members fuel' r []
            | [] => None
            end
          else if c =? 91 then
            match skip_ws r with
            | d :: r' =>
                if d =? 93 then Some (JArray [], r')
                else parse_elements fuel' r []
            | [] => None
            end
          else if c =? 34 then
            match parse_chars r [] with
            | Some (str, r') => Some (JString str, r')
            | None => None
            end
          else if c =? 45 then parse_number true r
          else if is_digit c then parse_number false (c :: r)
          else if JS.startsWith (c :: r) lit_true
          then Some (JBool true, JS.slice 4 (c :: r))
          else if JS.startsWith (c :: r) lit_false
          then Some (JBool false, JS.slice 5 (c :: r))
          else if JS.startsWith (c :: r) lit_null
          then Some (JNull, JS.slice 4 (c :: r))
          else None
      end
  end

with parse_elements (fuel : nat) (s : jsstring) (acc : list json)
  : option (json * jsstring) :=
  match fuel with
  | O => None
  | S fuel' =>
      match parse_value fuel' s with
      | Some (v, r) =>
          match skip_ws r with
          | d :: r' =>
              if d =? 44 then parse_elements fuel' r' (acc ++ [v])
              else if d =? 93 then Some (JArray (acc ++ [v]), r')
              else None
          | [] => None
          end
      | None => None
      end
  end

with parse_members (fuel : nat) (s : jsstring) (acc : list (jsstring * json))
  : option (json * jsstring) :=
  match fuel with
  | O => None
  | S fuel' =>
      match skip_ws s with
      | q :: r =>
          if q =? 34 then
            match parse_chars r [] with
            | Some (k, r1) =>
                match skip_ws r1 with
                | colon :: r2 =>
                    if colon =? 58 then
                      match parse_value fuel' r2 with
                      | Some (v, r3) =>
                          match skip_ws r3 with
                          | d :: r4 =>
                              if d =? 44
                              then parse_members fuel' r4 (acc ++ [(k, v)])
                              else if d =? 125
                              then Some (JObject (acc ++ [(k, v)]), r4)
                              else None
                          | [] => None
                          end
                      | None => None
                      end
                    else None
                | [] => None
                end
            | None => None
            end
          else None
      | [] => None
      end
  end.

(** [JSON.parse(text)]; [None] stands for the [SyntaxError] it throws.
    Two units of fuel per code unit cover every nesting the text can
    hold. *)
Definition parse (text : jsstring) : option json :=
  match parse_value (2 * List.length text + 2) text with
  | Some (v, rest) =>
      match skip_ws rest with
      | [] => Some v
      | _ :: _ => None
      end
  | None => None
  end.

(** *** Reading properties

    [None] is [undefined]. The names the source reads ([choices],
    [delta], [content], ...) are on no built-in prototype, so only own
    properties count; of two members with one name, [JSON.parse] keeps
    the later. *)

Inductive key := Field (name : jsstring) | Index0.

(** [v.name] and [v[0]] on a value that is neither [null] nor
    [undefined]. *)
Definition get (v : json) (k : key) : option json :=
  match k, v with
  | Field name, JObject members => JS.own name members
  | Index0, JObject members => JS.own [48] members
  | Index0, JArray items => nth_error items 0
  | Index0, JString (c :: _) => Some (JString [c])
  | _, _ => None
  end.

(** An optional chain [v?.k1?.k2 ...]: it is [undefined] as soon as a
    value on the way is [null] or [undefined]. *)
Fixpoint chain (v : option json) (ks : list key) : option json :=
  match ks with
  | [] => v
  | k :: ks' =>
      match v with
      | None | Some JNull => None
      | Some x => chain (get x k) ks'
      end
  end.

Definition truthy_opt (v : option json) : bool :=
  match v with Some x => truthy x | None => false end.

(** [a || b] *)
Definition or_else (a b : option json) : option json :=
  if truthy_opt a then a else b.

(** [a || null] *)
Definition or_null (a : option json) : json :=
  match or_else a (Some JNull) with Some x => x | None => JNull end.

End JSON.
Import JSON.


(** ** Provider adapters *)

Record AIConfig := {
  provider : jsstring;
  apiKeys : list (jsstring * jsstring);
  model : jsstring;
  baseUrl : option jsstring;
  baseUrls : list (jsstring * jsstring);
  customModel : option jsstring;
  replyLanguage : option jsstring
}.

Record APIRequestConfig := {
  url : jsstring;
  headers : list (jsstring * jsstring);
  body : json
}.

Record StreamChunk := {
  content : json;
  reasoning : json
}.

(** The interface the adapters implement. [extractContent] serves the
    calls that do not stream and is left out. *)
Record ProviderConfig := {
  getDefaultBaseUrl : jsstring;
  buildRequestConfig :
    AIConfig -> jsstring -> jsstring -> jsstring -> jsstring -> bool ->
    APIRequestConfig;
  parseStreamChunk : json -> StreamChunk
}.

(** [a || b] where [a] is an optional string: the empty string is falsy
    as well. *)
Definition str_or (a : option jsstring) (b : jsstring) : jsstring :=
  match a with
  | Some (c :: s) => c :: s
  | _ => b
  end.

Definition str_truthy (s : jsstring) : bool := negb (JS.eqb s []).

Definition field (name : string) : key := Field (js name).

Definition prop (name : string) (v : json) : jsstring * json := (js name, v).

Arguments field : simpl never.

Module OpenAIProvider.

Definition getDefaultBaseUrl : jsstring := js "https://api.openai.com/v1".

Definition buildRequestConfig (config : AIConfig)
    (systemPrompt userPrompt model apiKey : jsstring) (stream : bool)
  : APIRequestConfig :=
  let baseUrl := str_or (baseUrl config) getDefaultBaseUrl in
  let messages :=
    (if str_truthy systemPrompt
     then [JObject [prop "role" (JString (js "system"));
                    prop "content" (JString systemPrompt)]]
     else [])
    ++ [JObject [prop "role" (JString (js "user"));
                 prop "content" (JString userPrompt)]] in
  {| url := baseUrl ++ js "/chat/completions";
     headers := [(js "Content-Type", js "application/json");
                 (js "Authorization", js "Bearer " ++ apiKey)];
     body := JObject [prop "model" (JString model);
                      prop "messages" (JArray messages);
                      prop "temperature" (JNumber 3 (-1));
                      prop "stream" (JBool stream)] |}.

Definition delta : list key := [field "choices"; Index0; field "delta"].

(** [chunk?.choices?.[0]?.delta?.content] *)
Definition content_delta (chunk : json) : option json :=
  chain (Some chunk) (delta ++ [field "content"]).

(** [chunk?.choices?.[0]?.delta?.reasoning_content ||
     chunk?.choices?.[0]?.delta?.reasoning] *)
Definition reasoning_delta (chunk : json) : option json :=
  or_else (chain (Some chunk) (delta ++ [field "reasoning_content"]))
    (chain (Some chunk) (delta ++ [field "reasoning"])).

Definition parseStreamChunk (chunk : json) : StreamChunk :=
  {| content := or_null (content_delta chunk);
     reasoning := or_null (reasoning_delta chunk) |}.

Definition adapter : ProviderConfig :=
  Build_ProviderConfig getDefaultBaseUrl buildRequestConfig parseStreamChunk.

End OpenAIProvider.

Module GeminiProvider.

Definition getDefaultBaseUrl : jsstring :=
  js "https://generativelanguage.googleapis.com/v1beta".

Definition fullModelName (model : jsstring) : jsstring :=
  if JS.startsWith model (js "models/") then model
  else js "models/" ++ model.

Definition combinedPrompt (systemPrompt userPrompt : jsstring) : jsstring :=
  if str_truthy systemPrompt
  then systemPrompt ++ [10; 10] ++ userPrompt
  else userPrompt.

Definition buildRequestConfig (config : AIConfig)
    (systemPrompt userPrompt model apiKey : jsstring) (stream : bool)
  : APIRequestConfig :=
  let baseUrl := str_or (baseUrl config) getDefaultBaseUrl in
  let action :=
    if stream then js "streamGenerateContent" else js "generateContent" in
  let queryParams :=
    if stream then js "key=" ++ apiKey ++ js "&alt=sse"
    else js "key=" ++ apiKey in
  {| url := baseUrl ++ js "/" ++ fullModelName model ++ js ":" ++ action
            ++ js "?" ++ queryParams;
     headers := [(js "Content-Type", js "application/json")];
     body :=
       JObject
         [prop "contents"
            (JArray
               [JObject
                  [prop "parts"
                     (JArray
                        [JObject
                           [prop "text"
                              (JString
                                 (combinedPrompt systemPrompt
                                    userPrompt))]])]]);
          prop "generationConfig"
            (JObject [prop "temperature" (JNumber 3 (-1));
                      prop "responseMimeType"
                        (JString (js "application/json"))])] |}.

(** [chunk?.candidates?.[0]?.content?.parts?.[0]?.text] *)
Definition content_delta (chunk : json) : option json :=
  chain (Some chunk)
    [field "candidates"; Index0; field "content"; field "parts"; Index0;
     field "text"].

Definition parseStreamChunk (chunk : json) : StreamChunk :=
  {| content := or_null (content_delta chunk); reasoning := JNull |}.

Definition adapter : ProviderConfig :=
  Build_ProviderConfig getDefaultBaseUrl buildRequestConfig parseStreamChunk.

End GeminiProvider.

Module ClaudeProvider.

Definition getDefaultBaseUrl : jsstring := js "https://api.anthropic.com/v1".

Definition buildRequestConfig (config : AIConfig)
    (systemPrompt userPrompt model apiKey : jsstring) (stream : bool)
  : APIRequestConfig :=
  let baseUrl := str_or (baseUrl config) getDefaultBaseUrl in
  {| url := baseUrl ++ js "/messages";
     headers := [(js "Content-Type", js "application/json");
                 (js "x-api-key", apiKey);
                 (js "anthropic-version", js "2023-06-01")];
     body :=
       JObject
         [prop "model" (JString model);
          prop "system" (JString systemPrompt);
          prop "messages"
            (JArray [JObject [prop "role" (JString (js "user"));
                              prop "content" (JString userPrompt)]]);
          prop "stream" (JBool stream)] |}.

(** [chunk?.type === "content_block_delta"] *)
Definition is_content_block_delta (chunk : json) : bool :=
  match chain (Some chunk) [field "type"] with
  | Some (JString t) => JS.eqb t (js "content_block_delta")
  | _ => false
  end.

(** [chunk?.delta?.text] *)
Definition content_delta (chunk : json) : option json :=
  chain (Some chunk) [field "delta"; field "text"].

Definition parseStreamChunk (chunk : json) : StreamChunk :=
  if is_content_block_delta chunk then
    {| content := or_null (content_delta chunk); reasoning := JNull |}
  else {| content := JNull; reasoning := JNull |}.

Definition adapter : ProviderConfig :=
  Build_ProviderConfig getDefaultBaseUrl buildRequestConfig parseStreamChunk.

End ClaudeProvider.

(** [BackgroundAIService.providers]: the adapters by name. *)
Definition providers : list (jsstring * ProviderConfig) :=
  [(js "openai", OpenAIProvider.adapter);
   (js "openai-compatible", OpenAIProvider.adapter);
   (js "gemini", GeminiProvider.adapter);
   (js "claude", ClaudeProvider.adapter);
   (js "openrouter", OpenAIProvider.adapter)].

(** ** [BackgroundAIService.streamAI] *)

Definition DATA_PREFIX : jsstring := Eval cbv in js "data: ".
Definition DONE_SENTINEL : jsstring := Eval cbv in js "[DONE]".

(** [chunkData.content || chunkData.reasoning] *)
Definition has_delta (chunkData : StreamChunk) : bool :=
  truthy (content chunkData) || truthy (reasoning chunkData).

(** The [try] block: the chunks handed to [onChunk] for one payload. A
    [JSON.parse] that throws is caught and logged. *)
Definition try_emit (provider : ProviderConfig) (dataStr : jsstring)
  : list StreamChunk :=
  match JSON.parse dataStr with
  | Some data =>
      let chunkData := parseStreamChunk provider data in
      if has_delta chunkData then [chunkData] else []
  | None => []
  end.

(** The body of [for (const line of lines)]. *)
Definition process_line (provider : ProviderConfig) (line : jsstring)
  : list StreamChunk :=
  let trimmedLine := JS.trim line in
  if negb (str_truthy trimmedLine) then []
  else if JS.startsWith trimmedLine DATA_PREFIX then
    let dataStr := JS.slice 6 trimmedLine in
    if JS.eqb dataStr DONE_SENTINEL then []
    else try_emit provider dataStr
  else [].

(** The line handling in the words of the specification: trim, skip a
    blank line, strip the prefix when the line has it, skip the sentinel,
    and offer what remains to the parser. *)
Definition spec_process_line (provider : ProviderConfig) (line : jsstring)
  : list StreamChunk :=
  let trimmedLine := JS.trim line in
  if negb (str_truthy trimmedLine) then []
  else
    let remaining :=
      if JS.startsWith trimmedLine DATA_PREFIX then JS.slice 6 trimmedLine
      else trimmedLine in
    if JS.eqb remaining DONE_SENTINEL then []
    else try_emit provider remaining.

(** What the read loop keeps between two reads. *)
Record reader_state := {
  decoder : TextDecoder.state;
  buffer : jsstring
}.

Definition reader_init : reader_state :=
  {| decoder := TextDecoder.init; buffer := [] |}.

(** One turn of the loop on a value read: decode, append, split, keep the
    last fragment ([lines.pop()], or the empty string), process the others. *)
Definition read_value (provider : ProviderConfig) (st : reader_state)
    (value : list Z) : reader_state * list StreamChunk :=
  let (decoder', chunk) := TextDecoder.decode (decoder st) value in
  let lines := JS.split_nl (buffer st ++ chunk) in
  ({| decoder := decoder'; buffer := last lines [] |},
   flat_map (process_line provider) (removelast lines)).

Record Response := {
  ok : bool;
  status : Z;
  statusText : jsstring;
  has_body : bool
}.

(** What [streamAI] does to the outside: the request it sends and the
    callbacks it calls. *)
Inductive effect :=
| Fetch (request : APIRequestConfig)
| OnChunk (chunk : StreamChunk)
| OnDone
| OnError (error : jsstring).

(** The [await]s of [streamAI], each with what is live across it. *)
Inductive awaiting :=
| AwaitGetConfig (systemPrompt userPrompt : jsstring)
| AwaitFetch (config : AIConfig) (provider : ProviderConfig)
| AwaitResponseText (config : AIConfig) (response : Response)
| AwaitRead (provider : ProviderConfig) (st : reader_state).

(** How the environment settles an awaited promise. *)
Inductive settled :=
| Config (config : option AIConfig)
| Responded (response : Response)
| Text (text : jsstring)
| ReadValue (value : list Z)
| ReadDone
| Rejected (message : jsstring).

Definition NOT_CONFIGURED : jsstring := Eval cbv in js "AI功能未配置".
Definition UNSUPPORTED : jsstring := Eval cbv in js "不支持的AI服务商: ".
Definition REQUEST_FAILED : jsstring := Eval cbv in js " API请求失败: ".
Definition NO_BODY : jsstring := Eval cbv in js "无法获取响应流".

(** A [throw] inside the [try]: the [catch] reports the message and the
    call is over. *)
Definition throw (message : jsstring) : list effect * option awaiting :=
  ([OnError message], None).

(** From the configuration to the request. Objects are read by their own
    properties: a provider named like a member of [Object.prototype]
    would find that member in [apiKeys] and in [providers] and fail when
    [buildRequestConfig] is called on it, in the same [try]. *)
Definition with_config (systemPrompt userPrompt : jsstring)
    (config : option AIConfig) : list effect * option awaiting :=
  match config with
  | None => throw NOT_CONFIGURED
  | Some config =>
      match JS.own (provider config) (apiKeys config) with
      | None => throw NOT_CONFIGURED
      | Some apiKey =>
          if negb (str_truthy apiKey) then throw NOT_CONFIGURED
          else
            match JS.own (provider config) providers with
            | None => throw (UNSUPPORTED ++ provider config)
            | Some provider =>
                let model := str_or (customModel config) (model config) in
                ([Fetch (buildRequestConfig provider config systemPrompt
                           userPrompt model apiKey true)],
                 Some (AwaitFetch config provider))
            end
      end
  end.

(** [streamAI] from one [await] to the next. [getConfig] catches a
    storage failure and answers [null]; a reply of the wrong kind leaves
    the call suspended. *)
Definition resume (k : awaiting) (r : settled)
  : list effect * option awaiting :=
  match k, r with
  | AwaitGetConfig systemPrompt userPrompt, Config config =>
      with_config systemPrompt userPrompt config
  | AwaitGetConfig systemPrompt userPrompt, Rejected _ =>
      with_config systemPrompt userPrompt None
  | AwaitFetch config provider, Responded response =>
      if negb (ok response) then ([], Some (AwaitResponseText config response))
      else if negb (has_body response) then throw NO_BODY
      else ([], Some (AwaitRead provider reader_init))
  | AwaitResponseText config response, Text text =>
      throw (provider config ++ REQUEST_FAILED ++ JS.ofNat (status response)
             ++ [32] ++ statusText response ++ js " - " ++ text)
  | AwaitRead provider st, ReadValue value =>
      let (st', chunks) := read_value provider st value in
      (map OnChunk chunks, Some (AwaitRead provider st'))
  | AwaitRead provider st, ReadDone => ([OnDone], None)
  | AwaitFetch _ _, Rejected message
  | AwaitResponseText _ _, Rejected message
  | AwaitRead _ _, Rejected message => throw message
  | _, _ => ([], Some k)
  end.

(** The effects of a call that is resumed with the replies in turn. *)
Fixpoint drive (k : option awaiting) (replies : list settled) : list effect :=
  match k, replies with
  | Some k, r :: replies' =>
      let (effects, k') := resume k r in effects ++ drive k' replies'
  | _, _ => []
  end.

Definition streamAI (systemPrompt userPrompt : jsstring)
    (replies : list settled) : list effect :=
  drive (Some (AwaitGetConfig systemPrompt userPrompt)) replies.

(** ** [formatSubtitlesForAI] *)

Inductive exception :=
| Error (message : jsstring)
| TypeError.

Inductive completion (A : Type) :=
| Returns (value : A)
| Throws (e : exception).
Arguments Returns {A} value.
Arguments Throws {A} e.

Definition SUBTITLES_EMPTY : jsstring :=
  Eval cbv in js "字幕数据为空或格式不正确".

(** [subtitle.text || subtitle.content || subtitle.transcript || ''] on a
    subtitle that is not [null]. A value that is not an object has none of
    the three properties. *)
Definition first_truthy (subtitle : json) : option json :=
  or_else (get subtitle (field "text"))
    (or_else (get subtitle (field "content"))
       (or_else (get subtitle (field "transcript")) (Some (JString [])))).

(** The callback of [map]: the text found, trimmed. Reading a property
    of [null] throws, and only a string has a [trim] to call. *)
Definition subtitle_text (subtitle : json) : completion jsstring :=
  match subtitle with
  | JNull => Throws TypeError
  | _ =>
      match first_truthy subtitle with
      | Some (JString s) => Returns (JS.trim s)
      | _ => Throws TypeError
      end
  end.

(** [subtitles.map(...)]: the first callback that throws ends the call. *)
Fixpoint map_texts (subtitles : list json) : completion (list jsstring) :=
  match subtitles with
  | [] => Returns []
  | subtitle :: rest =>
      match subtitle_text subtitle with
      | Throws e => Throws e
      | Returns text =>
          match map_texts rest with
          | Throws e => Throws e
          | Returns texts => Returns (text :: texts)
          end
      end
  end.

(** The second [filter]: an element stays unless it equals the element
    before it in the array being filtered. *)
Fixpoint drop_repeats (previous : option jsstring) (array : list jsstring)
  : list jsstring :=
  match array with
  | [] => []
  | text :: rest =>
      match previous with
      | Some before =>
          if JS.eqb text before then drop_repeats (Some text) rest
          else text :: drop_repeats (Some text) rest
      | None => text :: drop_repeats (Some text) rest
      end
  end.

(** The callback of [reduce]. *)
Definition merge_short (acc : list jsstring) (current : jsstring)
  : list jsstring :=
  match acc with
  | [] => [current]
  | _ :: _ =>
      let last := List.last acc [] in
      if (JS.length current <? 20) && (JS.length last <? 50)
      then removelast acc ++ [last ++ [32] ++ current]
      else acc ++ [current]
  end.

Definition FULL_STOP : Z := 12290.

(** The cut of a text longer than 8000. *)
Definition cutPoint (formattedText : jsstring) : Z :=
  let truncated := JS.substring0 8000 formattedText in
  let lastPeriod := JS.lastIndexOf FULL_STOP truncated in
  let lastSpace := JS.lastIndexOf 32 truncated in
  if 7000 <? lastPeriod then lastPeriod + 1
  else if 7000 <? lastSpace then lastSpace
  else 8000.

Definition format_texts (texts : list jsstring) : jsstring :=
  let formattedText :=
    JS.trim
      (JS.collapseWhiteSpace
         (JS.join_sp
            (fold_left merge_short
               (drop_repeats None
                  (filter (fun text => 0 <? JS.length text) texts))
               []))) in
  if JS.length formattedText <=? 8000 then formattedText
  else JS.trim (JS.substring0 (cutPoint formattedText) formattedText).

(** The argument is whatever the message carried: [None] when the
    [subtitles] field is missing. *)
Definition formatSubtitlesForAI (subtitles : option json)
  : completion jsstring :=
  match subtitles with
  | Some (JArray (first :: rest)) =>
      match map_texts (first :: rest) with
      | Throws e => Throws e
      | Returns texts => Returns (format_texts texts)
      end
  | _ => Throws (Error SUBTITLES_EMPTY)
  end.

(** ** The [AI_STREAM] port

    Every message starts one invocation of the listener, with an
    [AbortController] of its own; [controller] holds the number of the
    invocation whose controller the variable refers to. The three actions
    that stream differ in the prompts they build and in nothing else: the
    prompts are what the environment answers to the first [await]. *)

Inductive message :=
| chunk (content reasoning : json)
| done
| error (e : jsstring).

Inductive stage :=
| AwaitPrompts
| InStreamAI (k : awaiting)
| Returned.

Record invocation := {
  aborted : bool;
  at_stage : stage
}.

Record port := {
  connected : bool;
  controller : option nat;
  invocations : list invocation;
  posted : list (nat * message)
}.

Definition port_open : port :=
  {| connected := true; controller := None; invocations := []; posted := [] |}.

Inductive reply :=
| Prompts (systemPrompt userPrompt : jsstring)
| PromptsFailed (message : jsstring)
| Service (r : settled).

Inductive occurrence :=
| Message (action : jsstring)
| Disconnect
| Settle (g : nat) (r : reply).

Definition streams (action : jsstring) : bool :=
  JS.eqb action (js "summarizeSubtitlesStream")
  || JS.eqb action (js "generateMindmapStream")
  || JS.eqb action (js "generateArticleMindmapStream").

Fixpoint update {A : Type} (n : nat) (f : A -> A) (l : list A) : list A :=
  match l, n with
  | [], _ => []
  | x :: l', O => f x :: l'
  | x :: l', S n' => x :: update n' f l'
  end.

Definition is_aborted (p : port) (g : nat) : bool :=
  match nth_error (invocations p) g with
  | Some i => aborted i
  | None => false
  end.

(** [if (controller) controller.abort()] *)
Definition abort_controller (p : port) : list invocation :=
  match controller p with
  | Some g =>
      update g (fun i => {| aborted := true; at_stage := at_stage i |})
        (invocations p)
  | None => invocations p
  end.

Definition set_stage (g : nat) (s : stage) (p : port) : port :=
  {| connected := connected p;
     controller := controller p;
     invocations :=
       update g (fun i => {| aborted := aborted i; at_stage := s |})
         (invocations p);
     posted := posted p |}.

(** [port.postMessage] throws on a disconnected port and
    [safePostMessage] swallows that. *)
Definition safePostMessage (g : nat) (m : message) (p : port) : port :=
  if connected p then
    {| connected := true;
       controller := controller p;
       invocations := invocations p;
       posted := posted p ++ [(g, m)] |}
  else p.

Definition clear_controller (p : port) : port :=
  {| connected := connected p;
     controller := None;
     invocations := invocations p;
     posted := posted p |}.

(** The [catch] of the listener and its [onError]:
    [if (signal.aborted) return], else post and clear. *)
Definition report_error (g : nat) (e : jsstring) (p : port) : port :=
  if is_aborted p g then p
  else clear_controller (safePostMessage g (error e) p).

(** The three callbacks invocation [g] hands to [streamAI]. *)
Definition callback (g : nat) (p : port) (e : effect) : port :=
  match e with
  | Fetch _ => p
  | OnChunk c => safePostMessage g (chunk (content c) (reasoning c)) p
  | OnDone => clear_controller (safePostMessage g done p)
  | OnError e => report_error g e p
  end.

Definition settle (g : nat) (i : invocation) (r : reply) (p : port) : port :=
  match at_stage i, r with
  | AwaitPrompts, Prompts systemPrompt userPrompt =>
      set_stage g (InStreamAI (AwaitGetConfig systemPrompt userPrompt)) p
  | AwaitPrompts, PromptsFailed e => set_stage g Returned (report_error g e p)
  | InStreamAI k, Service r =>
      let (effects, k') := resume k r in
      set_stage g
        (match k' with Some k' => InStreamAI k' | None => Returned end)
        (fold_left (callback g) effects p)
  | _, _ => p
  end.

Definition occur (p : port) (o : occurrence) : port :=
  match o with
  | Message action =>
      {| connected := connected p;
         controller := Some (List.length (invocations p));
         invocations :=
           abort_controller p
           ++ [{| aborted := false;
                  at_stage := if streams action then AwaitPrompts
                              else Returned |}];
         posted := posted p |}
  | Disconnect =>
      {| connected := false;
         controller := None;
         invocations := abort_controller p;
         posted := posted p |}
  | Settle g r =>
      match nth_error (invocations p) g with
      | Some i => settle g i r p
      | None => p
      end
  end.

Definition run (p : port) (os : list occurrence) : port := fold_left occur os p.

(** What invocation [g] has posted. *)
Definition events_of (g : nat) (p : port) : list message :=
  map snd (filter (fun e => Nat.eqb (fst e) g) (posted p)).

(** *** The transport

    [fetch], [response.text()] and [reader.read()] are bound to the
    signal: once it is aborted the promise they returned rejects.
    [honours_abort p o] tells that occurrence [o], arriving in state [p],
    respects this. [getConfig] and the prompts read storage and know no
    signal. *)

Definition bound_to_signal (k : awaiting) : bool :=
  match k with
  | AwaitGetConfig _ _ => false
  | _ => true
  end.

Definition is_rejection (r : settled) : bool :=
  match r with Rejected _ => true | _ => false end.

Definition honours_abort (p : port) (o : occurrence) : bool :=
  match o with
  | Settle g (Service r) =>
      match nth_error (invocations p) g with
      | Some i =>
          match at_stage i with
          | InStreamAI k =>
              if aborted i && bound_to_signal k then is_rejection r else true
          | _ => true
          end
      | None => true
      end
  | _ => true
  end.

Fixpoint honoured (p : port) (os : list occurrence) : bool :=
  match os with
  | [] => true
  | o :: os' => honours_abort p o && honoured (occur p o) os'
  end.

(** ** [extractContent]

    The method of the adapters that reads the text out of a response that
    was not streamed. Outside an optional chain, reading a property of
    [null] or [undefined] throws a [TypeError]. *)

Definition nullish (v : option json) : bool :=
  match v with
  | None | Some JNull => true
  | Some _ => false
  end.

(** [v.k] and [v[0]] without [?.] *)
Definition member (v : option json) (k : key) : completion (option json) :=
  match v with
  | None | Some JNull => Throws TypeError
  | Some x => Returns (get x k)
  end.

(** [v || ''] *)
Definition or_empty (v : option json) : json :=
  match or_else v (Some (JString [])) with
  | Some x => x
  | None => JString []
  end.

(** [response.choices[0]?.message?.content || ''] *)
Definition OpenAI_extractContent (response : json) : completion json :=
  match member (Some response) (field "choices") with
  | Throws e => Throws e
  | Returns choices =>
      match member choices Index0 with
      | Throws e => Throws e
      | Returns first =>
          Returns (or_empty (chain first [field "message"; field "content"]))
      end
  end.

(** [response.candidates[0]?.content?.parts[0]?.text || '']: the chain
    stops at a candidate or a content that is missing, and the parts of a
    content that is there are read without [?.]. *)
Definition Gemini_extractContent (response : json) : completion json :=
  match member (Some response) (field "candidates") with
  | Throws e => Throws e
  | Returns candidates =>
      match member candidates Index0 with
      | Throws e => Throws e
      | Returns first =>
          if nullish first then Returns (or_empty None)
          else
            let content := chain first [field "content"] in
            if nullish content then Returns (or_empty None)
            else
              match member (chain content [field "parts"]) Index0 with
              | Throws e => Throws e
              | Returns part => Returns (or_empty (chain part [field "text"]))
              end
      end
  end.

(** [response.content[0]?.text || ''] *)
Definition Claude_extractContent (response : json) : completion json :=
  match member (Some response) (field "content") with
  | Throws e => Throws e
  | Returns blocks =>
      match member blocks Index0 with
      | Throws e => Throws e
      | Returns first => Returns (or_empty (chain first [field "text"]))
      end
  end.

(** ** The captured subtitle URL

    The background script keeps one variable, [capturedSubtitleUrl],
    written by the [onBeforeRequest] listener and read and cleared by the
    [runtime.onMessage] listener. *)

(** What the listener reads of [new URL(details.url)]. *)
Record URL := {
  hostname : jsstring;
  pathname : jsstring;
  searchParams : list (jsstring * jsstring)
}.

(** [searchParams.has(name)] *)
Definition has (name : jsstring) (params : list (jsstring * jsstring))
  : bool :=
  existsb (fun p => JS.eqb (fst p) name) params.

(** The [onBeforeRequest] listener on a request for [details_url], which
    parses to [parsed]: the new value of the variable, and the URL for
    which the tabs are queried, if any. The callback of the query, which
    tells the first tab about the URL when that tab has an id, writes
    nothing to the variable and is not part of the model. *)
Definition onBeforeRequest (details_url : jsstring) (parsed : URL)
    (capturedSubtitleUrl : option jsstring)
  : option jsstring * option jsstring :=
  if JS.eqb (hostname parsed) (js "www.youtube.com")
     && JS.eqb (pathname parsed) (js "/api/timedtext")
  then
    if has (js "pot") (searchParams parsed)
    then (Some details_url, Some details_url)
    else (capturedSubtitleUrl, None)
  else (capturedSubtitleUrl, None).

(** What [sendResponse] is called with. *)
Inductive answer :=
| Formatted (data : jsstring)
| CapturedUrl (data : option jsstring)
| Success.

(** The [runtime.onMessage] listener: three [if]s one after the other.
    It returns the new value of the variable and the responses sent;
    nothing catches what [formatSubtitlesForAI] throws. *)
Definition onMessage (action : jsstring) (subtitles : option json)
    (capturedSubtitleUrl : option jsstring)
  : completion (option jsstring * list answer) :=
  match
    (if JS.eqb action (js "formatSubtitles")
     then
       match formatSubtitlesForAI subtitles with
       | Throws e => Throws e
       | Returns formatted => Returns [Formatted formatted]
       end
     else Returns [])
  with
  | Throws e => Throws e
  | Returns sent =>
      let sent :=
        if JS.eqb action (js "getCapturedSubtitleUrl")
        then sent ++ [CapturedUrl capturedSubtitleUrl]
        else sent in
      if JS.eqb action (js "clearCapturedSubtitleUrl")
      then Returns (None, sent ++ [Success])
      else Returns (capturedSubtitleUrl, sent)
  end.

(** What happens to the variable: a request seen by the first listener,
    or a message to the second. A listener that throws has assigned
    nothing. *)
Inductive event :=
| Request (details_url : jsstring) (parsed : URL)
| Msg (action : jsstring) (subtitles : option json).

Definition handle (capturedSubtitleUrl : option jsstring) (e : event)
  : option jsstring :=
  match e with
  | Request details_url parsed =>
      fst (onBeforeRequest details_url parsed capturedSubtitleUrl)
  | Msg action subtitles =>
      match onMessage action subtitles capturedSubtitleUrl with
      | Returns (captured, _) => captured
      | Throws _ => capturedSubtitleUrl
      end
  end.

(** ** [ResponseParser] *)

Module ResponseParser.

(** The line terminators of a regular expression. *)
Definition isLineTerminator (c : Z) : bool :=
  (c =? 10) || (c =? 13) || (c =? 8232) || (c =? 8233).

(** [\w] *)
Definition isWordChar (c : Z) : bool :=
  ((48 <=? c) && (c <=? 57)) || ((65 <=? c) && (c <=? 90))
  || (c =? 95) || ((97 <=? c) && (c <=? 122)).

Definition FENCE : jsstring := [96; 96; 96].

(** [^] under the [m] flag, [before] being the code unit before the
    position. *)
Definition at_line_start (before : option Z) : bool :=
  match before with
  | None => true
  | Some c => isLineTerminator c
  end.

(** [$] under the [m] flag, [s] being what follows the position. *)
Definition at_line_end (s : jsstring) : bool :=
  match s with
  | [] => true
  | c :: _ => isLineTerminator c
  end.

(** How much [[\w]*\n?] takes at the start of [s]. *)
Fixpoint tag_length (s : jsstring) : nat :=
  match s with
  | [] => O
  | c :: s' =>
      if isWordChar c then S (tag_length s')
      else if c =? 10 then 1%nat else O
  end.

(** [content.replace(/^```[\w]*\n?/gm, ...)] with the empty string: the
    matches are looked for from left to right, each after the end of the
    one before. [before] is the code unit before the position and [skip]
    the number of code units of the current match still to drop. *)
Fixpoint remove_opening (before : option Z) (skip : nat) (s : jsstring)
  : jsstring :=
  match s with
  | [] => []
  | c :: s' =>
      match skip with
      | S skip' => remove_opening (Some c) skip' s'
      | O =>
          if at_line_start before && JS.startsWith s FENCE
          then remove_opening (Some c) (2 + tag_length (skipn 3 s)) s'
          else c :: remove_opening (Some c) O s'
      end
  end.

(** [.replace(/```$/gm, ...)] with the empty string. *)
Fixpoint remove_closing (skip : nat) (s : jsstring) : jsstring :=
  match s with
  | [] => []
  | c :: s' =>
      match skip with
      | S skip' => remove_closing skip' s'
      | O =>
          if JS.startsWith s FENCE && at_line_end (skipn 3 s)
          then remove_closing 2 s'
          else c :: remove_closing O s'
      end
  end.

Definition cleanMindmapResponse (content : jsstring) : jsstring :=
  if negb (str_truthy content) then []
  else JS.trim (remove_closing O (remove_opening None O content)).

End ResponseParser.

(** ** [AIService], the formatter of the content script *)

Module AIService.

(** [(subtitle.text || subtitle.content || '').trim()] *)
Definition subtitle_text (subtitle : json) : completion jsstring :=
  match subtitle with
  | JNull => Throws TypeError
  | _ =>
      match or_else (get subtitle (field "text"))
              (or_else (get subtitle (field "content"))
                 (Some (JString [])))
      with
      | Some (JString s) => Returns (JS.trim s)
      | _ => Throws TypeError
      end
  end.

Fixpoint map_texts (subtitles : list json) : completion (list jsstring) :=
  match subtitles with
  | [] => Returns []
  | subtitle :: rest =>
      match subtitle_text subtitle with
      | Throws e => Throws e
      | Returns text =>
          match map_texts rest with
          | Throws e => Throws e
          | Returns texts => Returns (text :: texts)
          end
      end
  end.

(** What is not an array gives the empty string. *)
Definition formatSubtitlesForAI (subtitles : option json)
  : completion jsstring :=
  match subtitles with
  | Some (JArray items) =>
      match map_texts items with
      | Throws e => Throws e
      | Returns texts =>
          Returns
            (JS.join_sp (filter (fun text => 0 <? JS.length text) texts))
      end
  | _ => Returns []
  end.

End AIService.

(** ** Vocabulary of the properties *)

(** *** Lines and the read loop *)

(** No code unit of [s] is a newline. *)
Definition no_newline (s : jsstring) : Prop := Forall (fun c => c <> 10) s.

(** The loop over several values read in turn. *)
Fixpoint read_values (provider : ProviderConfig) (st : reader_state)
    (values : list (list Z)) : reader_state * list StreamChunk :=
  match values with
  | [] => (st, [])
  | value :: values' =>
      let (st1, out1) := read_value provider st value in
      let (st2, out2) := read_values provider st1 values' in
      (st2, out1 ++ out2)
  end.

(** Neither the first nor the last code unit is white space. *)
Definition is_trimmed (s : jsstring) : bool :=
  match s with
  | [] => true
  | c :: _ => negb (JS.isWhiteSpace c) && negb (JS.isWhiteSpace (last s c))
  end.

(** A payload on a line of its own, without the prefix, and the delta it
    holds. *)
Definition bare_json_line : jsstring :=
  qjs "{'choices':[{'delta':{'content':'x'}}]}".

Definition x_delta : StreamChunk :=
  {| content := JString (js "x"); reasoning := JNull |}.

(** The text the decoder has produced once all of [bytes] went through. *)
Definition text_of (bytes : list Z) : jsstring :=
  snd (TextDecoder.decode TextDecoder.init bytes).

(** The lines of a text that a newline ends. *)
Definition complete_lines (text : jsstring) : list jsstring :=
  removelast (JS.split_nl text).

(** A line that carries the delta [hi], as bytes and as text, and a line
    cut short in the middle of its payload. *)
Definition hi_line : list Z :=
  qbytes "data: {'choices':[{'delta':{'content':'hi'}}]}" ++ [10].

Definition hi_text : jsstring :=
  qjs "data: {'choices':[{'delta':{'content':'hi'}}]}".

Definition truncated_line : list Z :=
  qbytes "data: {'choices':[{'delta':{'cont" ++ [10].

(** *** Adapters *)

(** [{ role: 'user', content: userPrompt }] *)
Definition user_message (userPrompt : jsstring) : json :=
  JObject [prop "role" (JString (js "user"));
           prop "content" (JString userPrompt)].

(** The prefix of a Gemini model name. *)
Definition MODELS : jsstring := Eval cbv in js "models/".

(** The three wire dialects an adapter can speak. *)
Inductive dialect := OpenAI | Gemini | Claude.

Definition adapter_of (d : dialect) : ProviderConfig :=
  match d with
  | OpenAI => OpenAIProvider.adapter
  | Gemini => GeminiProvider.adapter
  | Claude => ClaudeProvider.adapter
  end.

(** What an adapter reads out of a payload before [|| null]: [None] is
    [undefined]. *)
Definition extracted_content (d : dialect) (chunk : json) : option json :=
  match d with
  | OpenAI => OpenAIProvider.content_delta chunk
  | Gemini => GeminiProvider.content_delta chunk
  | Claude =>
      if ClaudeProvider.is_content_block_delta chunk
      then ClaudeProvider.content_delta chunk
      else None
  end.

Definition extracted_reasoning (d : dialect) (chunk : json) : option json :=
  match d with
  | OpenAI => OpenAIProvider.reasoning_delta chunk
  | Gemini | Claude => None
  end.

(** [undefined], [null] or the empty string. *)
Definition absent_or_empty (v : option json) : bool :=
  match v with
  | None | Some JNull | Some (JString []) => true
  | Some _ => false
  end.

(** The first line an OpenAI stream usually sends: a role and an empty
    content. *)
Definition empty_content_line : jsstring :=
  qjs "data: {'choices':[{'delta':{'content':'','role':'assistant'}}]}".

(** *** The port *)

(** What one callback of an invocation posts, given whether the port is
    connected and whether the signal of the invocation is aborted. *)
Definition posts_of (is_connected is_aborted : bool) (e : effect)
  : list message :=
  if is_connected then
    match e with
    | Fetch _ => []
    | OnChunk c => [chunk (content c) (reasoning c)]
    | OnDone => [done]
    | OnError e => if is_aborted then [] else [error e]
    end
  else [].


(** What settling invocation [g] at [i] with [r] posts. *)
Definition settle_posts (p : port) (g : nat) (i : invocation) (r : reply)
  : list message :=
  match at_stage i, r with
  | AwaitPrompts, PromptsFailed e =>
      posts_of (connected p) (is_aborted p g) (OnError e)
  | InStreamAI k, Service r =>
      flat_map (posts_of (connected p) (is_aborted p g)) (fst (resume k r))
  | _, _ => []
  end.

(** The controller variable refers to an invocation that exists. *)
Definition controller_bound (p : port) : Prop :=
  match controller p with
  | Some g => (g < List.length (invocations p))%nat
  | None => True
  end.

(** Where invocation [g] stands, if there is one. *)
Definition stage_of (p : port) (g : nat) : option stage :=
  option_map at_stage (nth_error (invocations p) g).

(** Invocation [g] has not returned. *)
Definition running (p : port) (g : nat) : bool :=
  match stage_of p g with
  | Some AwaitPrompts | Some (InStreamAI _) => true
  | _ => false
  end.

(** At most one generation runs with a signal that is not aborted, and
    the controller variable refers to it. *)
Definition single_generation (p : port) : Prop :=
  forall g, running p g = true -> is_aborted p g = false ->
            controller p = Some g.

(** The callbacks that end a call of [streamAI]. *)
Definition terminal (e : effect) : bool :=
  match e with
  | OnDone | OnError _ => true
  | _ => false
  end.

(** The replies to [streamAI] as they reach the port. *)
Definition to_port (g : nat) (replies : list settled) : list occurrence :=
  map (fun r => Settle g (Service r)) replies.

(** The port once a streaming message has arrived on a fresh port and its
    prompts are ready: [streamAI] is waiting for the configuration. *)
Definition waiting_for_config (systemPrompt userPrompt : jsstring) : port :=
  {| connected := true;
     controller := Some 0%nat;
     invocations :=
       [{| aborted := false;
           at_stage := InStreamAI (AwaitGetConfig systemPrompt userPrompt) |}];
     posted := [] |}.

(** No key for the configured provider: the name is missing from
    [apiKeys], or its key is the empty string. *)
Definition key_absent (config : AIConfig) : Prop :=
  match JS.own (provider config) (apiKeys config) with
  | Some (_ :: _) => False
  | _ => True
  end.

(** No configuration, no key, or a provider without adapter. *)
Definition unconfigured (config : option AIConfig) : Prop :=
  match config with
  | None => True
  | Some config =>
      key_absent config \/ JS.own (provider config) providers = None
  end.

(** A configuration that selects Gemini and holds a key for OpenAI
    only. *)
Definition gemini_without_key : AIConfig :=
  {| provider := js "gemini"; apiKeys := [(js "openai", js "k")];
     model := js "gemini-pro"; baseUrl := None; baseUrls := [];
     customModel := None; replyLanguage := None |}.

(** Settles the comparisons of closed names by computation. *)
Ltac decide_keys :=
  repeat match goal with
         | |- context [JS.eqb ?a ?b] =>
             let r := eval vm_compute in (JS.eqb a b) in
             replace (JS.eqb a b) with r by (vm_compute; reflexivity)
         end;
  cbv iota.

(** *** The scenario of the specification *)

Definition openai_config : AIConfig :=
  {| provider := js "openai"; apiKeys := [(js "openai", js "k")];
     model := js "gpt-x"; baseUrl := None; baseUrls := [];
     customModel := None; replyLanguage := None |}.

(** The bytes the upstream sends. *)
Definition upstream : list Z :=
  qbytes "data: {'choices':[{'delta':{'content':'Hel'}}]}" ++ [10; 10]
  ++ qbytes "data: {'choices':[{'delta':{'content':'lo'}}]}" ++ [10; 10]
  ++ bytes "data: [DONE]" ++ [10; 10].

(** A streaming message on a fresh port, its prompts, the configuration,
    the response, its body in the values read, and the end of the body. *)
Definition scenario (response : Response) (values : list (list Z))
  : list occurrence :=
  [Message (js "summarizeSubtitlesStream");
   Settle 0 (Prompts (js "S") (js "U"))]
  ++ to_port 0
       ([Config (Some openai_config); Responded response]
        ++ map ReadValue values ++ [ReadDone]).

(** A success with a body. *)
Definition ok_response : Response :=
  {| ok := true; status := 200; statusText := js "OK"; has_body := true |}.

(** A first generation that has posted one chunk and is reading on. *)
Definition streaming : list occurrence :=
  [Message (js "summarizeSubtitlesStream");
   Settle 0 (Prompts (js "S") (js "U"))]
  ++ to_port 0 [Config (Some openai_config); Responded ok_response;
                ReadValue hi_line].

(** The port when a second message has just arrived. *)
Definition superseded : port :=
  occur (run port_open streaming) (Message (js "generateMindmapStream")).

(** *** Subtitles *)

(** An element the callback of [map] throws on: [null], or an element
    whose first truthy text is not a string. *)
Definition unusable (subtitle : json) : bool :=
  match subtitle with
  | JNull => true
  | _ =>
      match first_truthy subtitle with
      | Some (JString _) => false
      | _ => true
      end
  end.

(** The input for which the source throws its own error. *)
Definition not_array_or_empty (subtitles : option json) : bool :=
  match subtitles with
  | Some (JArray (_ :: _)) => false
  | _ => true
  end.

(** Whether a call ended in an exception. *)
Definition throws {A : Type} (c : completion A) : bool :=
  match c with Throws _ => true | Returns _ => false end.

(** The arrays [[null]], [[{ text: 42 }]] and two subtitles that can be
    read. *)
Definition null_element : option json := Some (JArray [JNull]).

Definition numeric_text : option json :=
  Some (JArray [JObject [prop "text" (JNumber 42 0)]]).

Definition two_subtitles : option json :=
  Some (JArray [JObject [prop "text" (JString (js "  hello "))];
                JObject [prop "content" (JString (js "world"))]]).

(** *** The callbacks of one call *)

(** What may follow the request: chunks, then at most one callback that
    ends the call. *)
Fixpoint after_fetch (es : list effect) : bool :=
  match es with
  | [] => true
  | OnChunk _ :: es' => after_fetch es'
  | OnDone :: es' | OnError _ :: es' =>
      match es' with [] => true | _ :: _ => false end
  | Fetch _ :: _ => false
  end.

(** The order [streamAI] keeps: nothing, or an error alone, or one
    request followed by chunks and at most one end. *)
Definition protocol (es : list effect) : bool :=
  match es with
  | [] => true
  | Fetch _ :: es' => after_fetch es'
  | OnError _ :: es' => match es' with [] => true | _ :: _ => false end
  | _ => false
  end.

(** The configuration of the scenario answered with status 401. *)
Definition unauthorized : Response :=
  {| ok := false; status := 401; statusText := js "Unauthorized";
     has_body := true |}.

(** A line that carries the delta [lo] and is not ended by a newline. *)
Definition lo_fragment : list Z :=
  qbytes "data: {'choices':[{'delta':{'content':'lo'}}]}".

(** *** What the port posts *)

(** Every code unit of [s] is white space. *)
Definition all_white (s : jsstring) : Prop :=
  Forall (fun c => JS.isWhiteSpace c = true) s.

(** A [chunk] message carries a delta: its content or its reasoning is
    truthy. *)
Definition carries_delta (m : message) : bool :=
  match m with
  | chunk c r => truthy c || truthy r
  | _ => true
  end.

(** Every message posted belongs to an invocation that exists. *)
Definition posted_bound (p : port) : Prop :=
  Forall (fun e => (fst e < List.length (invocations p))%nat) (posted p).

(** A line of a stream with CRLF line ends, indented. *)
Definition padded_line : jsstring := js "  " ++ hi_text ++ [13].

(** *** Requests and payloads *)

(** The base URL a request is built on. *)
Definition effective_base (d : dialect) (config : AIConfig) : jsstring :=
  str_or (baseUrl config) (getDefaultBaseUrl (adapter_of d)).

(** A value is [null] or truthy: never the empty string, zero or
    [false]. *)
Definition null_or_truthy (v : json) : bool :=
  match v with
  | JNull => true
  | _ => truthy v
  end.

(** A payload of the OpenAI dialect with the given choices, and one of
    the Gemini dialect with one candidate of the given parts. *)
Definition openai_payload (choices : list json) : json :=
  JObject [prop "choices" (JArray choices)].

Definition gemini_payload (parts : list json) : json :=
  JObject
    [prop "candidates"
       (JArray [JObject [prop "content" (JObject [prop "parts" (JArray parts)])]])].

(** A configuration with base URLs for each provider and no base URL of
    its own. *)
Definition with_base_urls : AIConfig :=
  {| provider := js "claude"; apiKeys := [(js "claude", js "k")];
     model := js "m"; baseUrl := None;
     baseUrls := [(js "claude", js "https://proxy.example/v1")];
     customModel := None; replyLanguage := None |}.

Definition without_base_urls : AIConfig :=
  {| provider := js "claude"; apiKeys := [(js "claude", js "k")];
     model := js "m"; baseUrl := Some [];
     baseUrls := []; customModel := None; replyLanguage := None |}.

(** An event of a Claude stream that opens a message, carrying a text it
    is not meant to deliver. *)
Definition message_start : json :=
  JObject [prop "type" (JString (js "message_start"));
           prop "delta" (JObject [prop "text" (JString (js "x"))])].

(** A part and a choice that carry a text. *)
Definition text_part (text : jsstring) : json :=
  JObject [prop "text" (JString text)].

Definition content_choice (text : jsstring) : json :=
  JObject [prop "delta" (JObject [prop "content" (JString text)])].

(** Responses that were not streamed: one without its list, and one
    whose first candidate has a content without parts. *)
Definition no_list : json := JObject [prop "error" (JString (js "overloaded"))].

Definition content_without_parts : json :=
  JObject
    [prop "candidates" (JArray [JObject [prop "content" (JObject [])]])].

(** [extractContent] of the adapter of a dialect. *)
Definition extractContent (d : dialect) (response : json) : completion json :=
  match d with
  | OpenAI => OpenAI_extractContent response
  | Gemini => Gemini_extractContent response
  | Claude => Claude_extractContent response
  end.

(** The property that holds the list of a response. *)
Definition list_field (d : dialect) : key :=
  match d with
  | OpenAI => field "choices"
  | Gemini => field "candidates"
  | Claude => field "content"
  end.

(** *** Formatted subtitles *)

(** The only white space in [s] is the space, and no space follows
    another; [after_space] tells that a space comes just before [s]. *)
Fixpoint single_spaced_from (after_space : bool) (s : jsstring) : bool :=
  match s with
  | [] => true
  | c :: s' =>
      if JS.isWhiteSpace c
      then (c =? 32) && negb after_space && single_spaced_from true s'
      else single_spaced_from false s'
  end.

Definition single_spaced (s : jsstring) : bool := single_spaced_from false s.

(** No text equals the text before it; [previous] is what comes before
    the list. *)
Fixpoint no_repeat_from (previous : option jsstring) (l : list jsstring)
  : bool :=
  match l with
  | [] => true
  | text :: rest =>
      match previous with
      | Some before => negb (JS.eqb text before)
      | None => true
      end
      && no_repeat_from (Some text) rest
  end.

Definition no_repeat (l : list jsstring) : bool := no_repeat_from None l.

(** The texts that count: those that are not empty, without repeats. *)
Definition kept_texts (texts : list jsstring) : list jsstring :=
  drop_repeats None (filter (fun text => 0 <? JS.length text) texts).

(** The text before it is cut to 8000. *)
Definition formattedText (texts : list jsstring) : jsstring :=
  JS.trim
    (JS.collapseWhiteSpace
       (JS.join_sp (fold_left merge_short (kept_texts texts) []))).

(** The cut of a text that may be longer than 8000. *)
Definition truncate (formattedText : jsstring) : jsstring :=
  if JS.length formattedText <=? 8000 then formattedText
  else JS.trim (JS.substring0 (cutPoint formattedText) formattedText).

(** A subtitle that carries the text [text]. *)
Definition subtitle_of (text : jsstring) : json :=
  JObject [prop "text" (JString text)].

(** Subtitles without any text. *)
Definition blank_subtitles : list json :=
  [subtitle_of (js "   "); JObject []; JNumber 7 0].

(** A subtitle from which the callback of [map] gets the empty text. *)
Definition without_text (subtitle : json) : bool :=
  match subtitle_text subtitle with
  | Returns [] => true
  | _ => false
  end.

(** *** The captured subtitle URL *)

(** The requests whose URL the first listener keeps. *)
Definition accepted (parsed : URL) : bool :=
  JS.eqb (hostname parsed) (js "www.youtube.com")
  && JS.eqb (pathname parsed) (js "/api/timedtext")
  && has (js "pot") (searchParams parsed).

(** What the newest of the events that count has left behind: the URL
    of an accepted request, or nothing after a message that clears. *)
Fixpoint latest (newest_first : list event) : option jsstring :=
  match newest_first with
  | [] => None
  | Request details_url parsed :: older =>
      if accepted parsed then Some details_url else latest older
  | Msg action _ :: older =>
      if JS.eqb action (js "clearCapturedSubtitleUrl") then None
      else latest older
  end.

(** *** Fenced responses *)

Definition no_backtick (s : jsstring) : bool :=
  forallb (fun c => negb (c =? 96)) s.

Definition word (s : jsstring) : bool :=
  forallb ResponseParser.isWordChar s.

(** [body] in a fence opened on a line of its own, with [tag] after
    it, and closed right after [body]. *)
Definition fenced (tag body : jsstring) : jsstring :=
  ResponseParser.FENCE ++ tag ++ 10 :: body ++ ResponseParser.FENCE.

(** The code unit before the end of [s], [before] being the one before
    [s]. *)
Definition last_before (before : option Z) (s : jsstring) : option Z :=
  fold_left (fun _ c => Some c) s before.

(** *** The two formatters *)

(** Two subtitles both formatters read alike, and their texts. *)
Definition spoken : list json :=
  [subtitle_of (js " a  b "); JObject [prop "content" (JString (js "c"))]].

Definition spoken_texts : list jsstring := [js "a  b"; js "c"].

(** *** Valid lines *)

(** A line that delivers [chunk]: once trimmed it is the prefix and a
    payload, the payload parses, [chunk] is what the adapter reads out of
    it, and its content or its reasoning is truthy. *)
Definition valid_line (provider : ProviderConfig) (line : jsstring)
    (chunk : StreamChunk) : Prop :=
  exists (payload : jsstring) (data : json),
    JS.trim line = DATA_PREFIX ++ payload
    /\ JSON.parse payload = Some data
    /\ parseStreamChunk provider data = chunk
    /\ has_delta chunk = true.

(** The payload of [hi_text], what it parses to, and the chunk the OpenAI
    adapter reads out of it. *)
Definition hi_payload : jsstring :=
  qjs "{'choices':[{'delta':{'content':'hi'}}]}".

Definition hi_data : json :=
  JObject
    [prop "choices"
       (JArray
          [JObject
             [prop "delta" (JObject [prop "content" (JString (js "hi"))])]])].

Definition hi_delta : StreamChunk :=
  {| content := JString (js "hi"); reasoning := JNull |}.

(** A line whose content delta is a number, and one whose content delta
    is [true]. *)
Definition number_content_line : jsstring :=
  qjs "data: {'choices':[{'delta':{'content':42}}]}".

Definition true_content_line : jsstring :=
  qjs "data: {'choices':[{'delta':{'content':true}}]}".

(** A payload of the Gemini dialect with the given candidates, and a
    candidate with the given parts. *)
Definition gemini_candidates (candidates : list json) : json :=
  JObject [prop "candidates" (JArray candidates)].

Definition candidate_of (parts : list json) : json :=
  JObject [prop "content" (JObject [prop "parts" (JArray parts)])].

(** * Properties *)

(** ** Strings and lines *)

Lemma split_from_nonempty (s cur : jsstring) : JS.split_from cur s <> [].
Proof.
  revert cur; induction s as [|c s IH]; intros cur; simpl.
  - discriminate.
  - destruct (c =? 10); [discriminate | apply IH].
Qed.

(** Splitting a concatenation: the complete lines of the first part, then
    the split of the second part started in the fragment left open. *)
Lemma split_from_app (a b cur : jsstring) :
  JS.split_from cur (a ++ b) =
  removelast (JS.split_from cur a)
  ++ JS.split_from (last (JS.split_from cur a) []) b.
Proof.
  revert cur; induction a as [|c a IH]; intros cur; simpl.
  - reflexivity.
  - destruct (c =? 10).
    + rewrite IH.
      pose proof (split_from_nonempty a []) as Hne.
      destruct (JS.split_from [] a) as [|l ls]; [contradiction | reflexivity].
    + apply IH.
Qed.

Lemma split_from_prefix (buf x cur : jsstring) :
  no_newline buf ->
  JS.split_from cur (buf ++ x) = JS.split_from (cur ++ buf) x.
Proof.
  intros H; revert cur; induction H as [|c buf Hc _ IH]; intros cur; simpl.
  - now rewrite app_nil_r.
  - apply Z.eqb_neq in Hc; rewrite Hc, IH, <- app_assoc; reflexivity.
Qed.

Lemma split_from_last (s cur : jsstring) :
  no_newline cur -> no_newline (last (JS.split_from cur s) []).
Proof.
  revert cur; induction s as [|c s IH]; intros cur Hcur; simpl.
  - exact Hcur.
  - destruct (c =? 10) eqn:E.
    + pose proof (split_from_nonempty s []) as Hne.
      specialize (IH [] (Forall_nil _)).
      destruct (JS.split_from [] s); [contradiction | exact IH].
    + apply IH, Forall_app; split; [exact Hcur|].
      constructor; [now apply Z.eqb_neq | constructor].
Qed.

Lemma removelast_app_nonempty {A} (l l' : list A) :
  l' <> [] -> removelast (l ++ l') = l ++ removelast l'.
Proof. intros; now apply removelast_app. Qed.

Lemma last_app_nonempty {A} (l l' : list A) (d : A) :
  l' <> [] -> last (l ++ l') d = last l' d.
Proof.
  intros H; induction l as [|x l IH]; [reflexivity|].
  simpl; rewrite IH.
  destruct (l ++ l') eqn:E; [|reflexivity].
  apply app_eq_nil in E; destruct E; contradiction.
Qed.

(** ** The decoder *)

Lemma decode_app (s : TextDecoder.state) (a b : list Z) :
  TextDecoder.decode s (a ++ b) =
  let (s1, out1) := TextDecoder.decode s a in
  let (s2, out2) := TextDecoder.decode s1 b in
  (s2, out1 ++ out2).
Proof.
  revert s; induction a as [|x a IH]; intros s; simpl.
  - destruct (TextDecoder.decode s b); reflexivity.
  - destruct (TextDecoder.step s x) as [s1 o1].
    rewrite IH.
    destruct (TextDecoder.decode s1 a) as [s2 o2].
    destruct (TextDecoder.decode s2 b) as [s3 o3].
    now rewrite app_assoc.
Qed.

(** ** The read loop *)

Lemma read_value_buffer provider st value :
  no_newline (buffer (fst (read_value provider st value))).
Proof.
  unfold read_value.
  destruct (TextDecoder.decode (decoder st) value) as [d text]; simpl.
  apply split_from_last; constructor.
Qed.

(** Reading [a ++ b] at once is reading [a], then [b]. *)
Lemma read_value_app provider st (a b : list Z) :
  no_newline (buffer st) ->
  read_value provider st (a ++ b) =
  let (st1, out1) := read_value provider st a in
  let (st2, out2) := read_value provider st1 b in
  (st2, out1 ++ out2).
Proof.
  intros Hbuf; unfold read_value.
  rewrite decode_app.
  destruct (TextDecoder.decode (decoder st) a) as [d1 ta]; simpl.
  destruct (TextDecoder.decode d1 b) as [d2 tb]; simpl.
  unfold JS.split_nl.
  rewrite app_assoc, split_from_app.
  set (X := JS.split_from [] (buffer st ++ ta)).
  assert (HX : no_newline (last X [])) by (apply split_from_last; constructor).
  rewrite (split_from_prefix (last X []) tb []) by exact HX.
  simpl.
  pose proof (split_from_nonempty tb (last X [])) as Hne.
  rewrite last_app_nonempty, removelast_app_nonempty by exact Hne.
  now rewrite flat_map_app.
Qed.

Lemma read_value_nil provider st :
  no_newline (buffer st) ->
  read_value provider st [] = (st, []).
Proof.
  intros Hbuf; unfold read_value; simpl.
  rewrite app_nil_r. unfold JS.split_nl.
  rewrite <- (app_nil_r (buffer st)), split_from_prefix by exact Hbuf.
  simpl. destruct st; reflexivity.
Qed.

Lemma read_values_concat provider (values : list (list Z)) st :
  no_newline (buffer st) ->
  read_values provider st values = read_value provider st (List.concat values).
Proof.
  revert st; induction values as [|v vs IH]; intros st Hbuf; simpl.
  - now rewrite read_value_nil.
  - rewrite read_value_app by exact Hbuf.
    pose proof (read_value_buffer provider st v) as H1.
    destruct (read_value provider st v) as [st1 o1]; simpl in H1.
    now rewrite IH.
Qed.

Lemma drive_read_values provider (values : list (list Z)) st rest :
  drive (Some (AwaitRead provider st)) (map ReadValue values ++ rest) =
  map OnChunk (snd (read_values provider st values))
  ++ drive (Some (AwaitRead provider (fst (read_values provider st values))))
       rest.
Proof.
  revert st; induction values as [|v vs IH]; intros st; simpl.
  - reflexivity.
  - destruct (read_value provider st v) as [st1 o1].
    rewrite IH.
    destruct (read_values provider st1 vs) as [st2 o2]; simpl.
    now rewrite map_app, app_assoc.
Qed.

Lemma read_loop_one_value provider (values : list (list Z))
    (rest : list settled) :
  drive (Some (AwaitRead provider reader_init))
    (map ReadValue values ++ rest) =
  drive (Some (AwaitRead provider reader_init))
    (ReadValue (List.concat values) :: rest).
Proof.
  rewrite drive_read_values.
  rewrite read_values_concat by constructor.
  simpl.
  destruct (read_value provider reader_init (List.concat values)) as [st out].
  reflexivity.
Qed.

(** C1. Chunk boundaries are not observable: whatever the partition of the
    bytes of the response into the values the reader yields (a cut inside
    a line, on a newline, or between the bytes of one UTF-8 character), the
    read loop of [streamAI] calls [onChunk] with the same deltas in the
    same order as when the bytes arrive as one value, and goes on in the
    same way with whatever the reader answers next. *)
Theorem decode_loop_chunking_invariant :
  forall (provider : ProviderConfig) (values : list (list Z))
         (rest : list settled),
    drive (Some (AwaitRead provider reader_init))
      (map ReadValue values ++ rest) =
    drive (Some (AwaitRead provider reader_init))
      (ReadValue (List.concat values) :: rest).
Proof.
  intros provider values rest.
  apply read_loop_one_value.
Qed.

Example cut_inside_character :
  let line := qbytes "data: {'choices':[{'delta':{'content':'é'}}]}" ++ [10] in
  drive (Some (AwaitRead OpenAIProvider.adapter reader_init))
    [ReadValue (firstn 40 line); ReadValue (skipn 40 line); ReadDone]
  = [OnChunk {| content := JString [233]; reasoning := JNull |}; OnDone]
  /\ nth 39 line 0 = 195 /\ nth 40 line 0 = 169.
Proof. vm_compute. repeat split. Qed.

(** ** Trimming *)

Lemma trimStart_head (s : jsstring) :
  match JS.trimStart s with
  | [] => True
  | c :: _ => JS.isWhiteSpace c = false
  end.
Proof.
  induction s as [|c s IH]; simpl; [exact I|].
  destruct (JS.isWhiteSpace c) eqn:E; [exact IH | exact E].
Qed.

Lemma trimStart_fixed (c : Z) (s : jsstring) :
  JS.isWhiteSpace c = false -> JS.trimStart (c :: s) = c :: s.
Proof. intros E; simpl; now rewrite E. Qed.

(** [trimStart] keeps a suffix. *)
Lemma trimStart_suffix (s : jsstring) :
  exists ws, s = ws ++ JS.trimStart s.
Proof.
  induction s as [|c s [ws IH]]; simpl.
  - now exists [].
  - destruct (JS.isWhiteSpace c).
    + exists (c :: ws); simpl; now f_equal.
    + now exists [].
Qed.

Lemma trimStart_app_keep (s : jsstring) (c : Z) :
  JS.isWhiteSpace c = false -> exists t, JS.trimStart (s ++ [c]) = t ++ [c].
Proof.
  intros E; induction s as [|d s [t IH]]; simpl.
  - rewrite E; now exists [].
  - destruct (JS.isWhiteSpace d).
    + now exists t.
    + now exists (d :: s).
Qed.

Lemma trimEnd_last (s : jsstring) (d : Z) :
  JS.trimEnd s = [] \/ JS.isWhiteSpace (last (JS.trimEnd s) d) = false.
Proof.
  unfold JS.trimEnd.
  pose proof (trimStart_head (rev s)) as H.
  destruct (JS.trimStart (rev s)) as [|c t]; [now left | right].
  simpl; now rewrite last_last.
Qed.

(** [trimEnd] keeps the first code unit of a string that starts with
    something else than white space. *)
Lemma trimEnd_head (c : Z) (s : jsstring) :
  JS.isWhiteSpace c = false -> exists t, JS.trimEnd (c :: s) = c :: t.
Proof.
  intros E; unfold JS.trimEnd; simpl.
  destruct (trimStart_app_keep (rev s) c E) as [t Ht].
  rewrite Ht, rev_app_distr; simpl; now exists (rev t).
Qed.

Lemma trim_is_trimmed (s : jsstring) : is_trimmed (JS.trim s) = true.
Proof.
  unfold JS.trim.
  pose proof (trimStart_head s) as H.
  destruct (JS.trimStart s) as [|c t]; [reflexivity|].
  destruct (trimEnd_head c t H) as [u Hu].
  pose proof (trimEnd_last (c :: t) c) as HL.
  rewrite Hu in *; unfold is_trimmed.
  destruct HL as [HL | HL]; [discriminate|].
  now rewrite H, HL.
Qed.

Lemma trim_fixed (s : jsstring) : is_trimmed s = true -> JS.trim s = s.
Proof.
  destruct s as [|c s]; [reflexivity|].
  unfold is_trimmed; intros H; apply andb_true_iff in H; destruct H as [H1 H2].
  apply negb_true_iff in H1, H2.
  unfold JS.trim; rewrite trimStart_fixed by exact H1.
  unfold JS.trimEnd.
  destruct (exists_last (l := c :: s)) as [t [d Ht]]; [discriminate|].
  rewrite Ht in *; rewrite last_last in H2.
  rewrite rev_app_distr.
  change (rev [d] ++ rev t) with (d :: rev t).
  rewrite trimStart_fixed by exact H2.
  change (d :: rev t) with (rev [d] ++ rev t).
  now rewrite <- rev_app_distr, rev_involutive.
Qed.

Lemma trim_idempotent (s : jsstring) : JS.trim (JS.trim s) = JS.trim s.
Proof. apply trim_fixed, trim_is_trimmed. Qed.

Lemma trim_length (s : jsstring) :
  (List.length (JS.trim s) <= List.length s)%nat.
Proof.
  unfold JS.trim, JS.trimEnd.
  rewrite length_rev.
  destruct (trimStart_suffix s) as [w1 H1].
  destruct (trimStart_suffix (rev (JS.trimStart s))) as [w2 H2].
  apply (f_equal (@List.length Z)) in H1, H2.
  rewrite length_app in H1, H2; rewrite length_rev in H2; lia.
Qed.

(** ** Lines *)

Lemma eqb_eq (s t : jsstring) : JS.eqb s t = true <-> s = t.
Proof.
  revert t; induction s as [|a s IH]; intros [|b t]; simpl;
    try (split; [discriminate | intros H; discriminate H]);
    try (split; reflexivity).
  rewrite andb_true_iff, Z.eqb_eq, IH.
  split; [intros [-> ->]; reflexivity | intros H; inversion H; now split].
Qed.

Lemma eqb_neq (s t : jsstring) : JS.eqb s t = false <-> s <> t.
Proof.
  rewrite <- eqb_eq; destruct (JS.eqb s t); split; congruence.
Qed.

Lemma startsWith_app (p x : jsstring) : JS.startsWith (p ++ x) p = true.
Proof.
  induction p as [|c p IH]; simpl; [reflexivity|].
  now rewrite Z.eqb_refl, IH.
Qed.

Lemma startsWith_split (s p : jsstring) :
  JS.startsWith s p = true -> s = p ++ JS.slice (List.length p) s.
Proof.
  revert s; induction p as [|c p IH]; intros s H; simpl in *; [reflexivity|].
  destruct s as [|d s]; [discriminate|].
  apply andb_true_iff in H; destruct H as [Hc Hs].
  apply Z.eqb_eq in Hc; subst d.
  unfold JS.slice in *; simpl; f_equal; now apply IH.
Qed.

Lemma process_line_blank provider line :
  JS.trim line = [] -> process_line provider line = [].
Proof. unfold process_line; now intros ->. Qed.

Lemma process_line_unprefixed provider line :
  JS.startsWith (JS.trim line) DATA_PREFIX = false ->
  process_line provider line = [].
Proof.
  unfold process_line; intros ->.
  now destruct (negb (str_truthy (JS.trim line))).
Qed.

Lemma process_line_prefixed provider line payload :
  JS.trim line = DATA_PREFIX ++ payload ->
  process_line provider line =
  if JS.eqb payload DONE_SENTINEL then [] else try_emit provider payload.
Proof.
  unfold process_line; intros ->.
  rewrite startsWith_app; reflexivity.
Qed.

(** The sentinel is no JSON text. *)
Lemma sentinel_not_json : JSON.parse DONE_SENTINEL = None.
Proof. vm_compute; reflexivity. Qed.

(** A valid line hands its chunk, and nothing else, to [onChunk]. *)
Lemma valid_line_delivered provider line chunk :
  valid_line provider line chunk -> process_line provider line = [chunk].
Proof.
  intros [payload [data [Hline [Hparse [Hchunk Hdelta]]]]].
  rewrite (process_line_prefixed _ _ _ Hline).
  destruct (JS.eqb payload DONE_SENTINEL) eqn:E.
  - apply eqb_eq in E; subst payload.
    rewrite sentinel_not_json in Hparse; discriminate.
  - unfold try_emit; rewrite Hparse, Hchunk, Hdelta; reflexivity.
Qed.

Lemma valid_lines_delivered provider lines chunks :
  Forall2 (valid_line provider) lines chunks ->
  flat_map (process_line provider) lines = chunks.
Proof.
  induction 1 as [|line chunk lines chunks H _ IH]; [reflexivity|].
  cbn [flat_map]; now rewrite (valid_line_delivered _ _ _ H), IH.
Qed.

(** C3 as the code has it. Every line is trimmed first; a blank line is
    skipped; a line that does not start with [data: ] is skipped as well
    and never reaches the parser; after the prefix, [[DONE]] is skipped and
    any other text is parsed as JSON, its delta being emitted when the
    parse succeeds and the delta is not empty. *)
Theorem line_handling :
  forall (provider : ProviderConfig) (line : jsstring),
    process_line provider line = process_line provider (JS.trim line)
    /\ (JS.trim line = [] -> process_line provider line = [])
    /\ (JS.startsWith (JS.trim line) DATA_PREFIX = false ->
        process_line provider line = [])
    /\ (JS.trim line = DATA_PREFIX ++ DONE_SENTINEL ->
        process_line provider line = [])
    /\ (forall payload,
          JS.trim line = DATA_PREFIX ++ payload ->
          payload <> DONE_SENTINEL ->
          process_line provider line = try_emit provider payload).
Proof.
  intros provider line; repeat split.
  - unfold process_line; now rewrite trim_idempotent.
  - apply process_line_blank.
  - apply process_line_unprefixed.
  - intros H; now rewrite (process_line_prefixed _ _ _ H).
  - intros payload H Hne; rewrite (process_line_prefixed _ _ _ H).
    apply eqb_neq in Hne; now rewrite Hne.
Qed.

(** C3 as stated fails: a line that holds a payload without the [data: ]
    prefix would reach the parser and yield its delta, and the code
    drops it. *)
Lemma unprefixed_line_not_parsed :
  JS.trim bare_json_line = bare_json_line
  /\ JS.startsWith bare_json_line DATA_PREFIX = false
  /\ spec_process_line OpenAIProvider.adapter bare_json_line = [x_delta]
  /\ process_line OpenAIProvider.adapter bare_json_line = [].
Proof. vm_compute; repeat split. Qed.

Lemma line_handling_witness :
  process_line OpenAIProvider.adapter (js "   ") = []
  /\ process_line OpenAIProvider.adapter bare_json_line = []
  /\ process_line OpenAIProvider.adapter (js " data: [DONE] ") = []
  /\ process_line OpenAIProvider.adapter (js "data: " ++ bare_json_line)
     = try_emit OpenAIProvider.adapter bare_json_line.
Proof.
  split; [|split; [|split]].
  - apply (proj1 (proj2 (line_handling OpenAIProvider.adapter (js "   ")))).
    reflexivity.
  - apply (proj1 (proj2 (proj2
             (line_handling OpenAIProvider.adapter bare_json_line)))).
    reflexivity.
  - apply (proj1 (proj2 (proj2 (proj2
             (line_handling OpenAIProvider.adapter (js " data: [DONE] ")))))).
    reflexivity.
  - apply (proj2 (proj2 (proj2 (proj2
             (line_handling OpenAIProvider.adapter
                (js "data: " ++ bare_json_line)))))).
    + reflexivity.
    + vm_compute; discriminate.
Defined.

(** ** The stream as a sequence of lines *)

(** A stream that ends is the lines of its text, handled in order, and
    then [onDone]. *)
Lemma read_loop_lines provider (values : list (list Z)) :
  drive (Some (AwaitRead provider reader_init))
    (map ReadValue values ++ [ReadDone]) =
  map OnChunk
    (flat_map (process_line provider)
       (complete_lines (text_of (List.concat values))))
  ++ [OnDone].
Proof.
  rewrite read_loop_one_value.
  unfold drive, resume, read_value, reader_init, complete_lines, text_of.
  simpl decoder; simpl buffer.
  destruct (TextDecoder.decode TextDecoder.init (List.concat values)); simpl.
  reflexivity.
Qed.

(** C5. A line whose payload is not valid JSON is dropped and nothing
    else happens: the deltas of the lines before it and of the lines
    after it are handed to [onChunk] in order, the stream runs to
    [onDone], and [onError] is not called. Every valid line among them
    contributes its chunk and nothing else; when all of them are valid, the
    callbacks are their chunks in order and then [onDone]. *)
Theorem malformed_line_skipped :
  forall (provider : ProviderConfig) (values : list (list Z))
         (before after : list jsstring) (bad payload : jsstring),
    complete_lines (text_of (List.concat values)) = before ++ bad :: after ->
    JS.trim bad = DATA_PREFIX ++ payload ->
    JSON.parse payload = None ->
    drive (Some (AwaitRead provider reader_init))
      (map ReadValue values ++ [ReadDone])
    = map OnChunk
        (flat_map (process_line provider) before
         ++ flat_map (process_line provider) after)
      ++ [OnDone]
    /\ (forall (line : jsstring) (chunk : StreamChunk),
          In line (before ++ after) ->
          valid_line provider line chunk ->
          process_line provider line = [chunk])
    /\ (forall (chunks_before chunks_after : list StreamChunk),
          Forall2 (valid_line provider) before chunks_before ->
          Forall2 (valid_line provider) after chunks_after ->
          drive (Some (AwaitRead provider reader_init))
            (map ReadValue values ++ [ReadDone])
          = map OnChunk (chunks_before ++ chunks_after) ++ [OnDone]).
Proof.
  intros provider values before after bad payload Hlines Hbad Hparse.
  assert (E : drive (Some (AwaitRead provider reader_init))
                (map ReadValue values ++ [ReadDone])
              = map OnChunk
                  (flat_map (process_line provider) before
                   ++ flat_map (process_line provider) after)
                ++ [OnDone]).
  { rewrite read_loop_lines, Hlines, flat_map_app; simpl.
    rewrite (process_line_prefixed _ _ _ Hbad).
    unfold try_emit; rewrite Hparse.
    now destruct (JS.eqb payload DONE_SENTINEL). }
  split; [exact E|split].
  - intros line chunk _; apply valid_line_delivered.
  - intros chunks_before chunks_after Hb Ha; rewrite E.
    now rewrite (valid_lines_delivered _ _ _ Hb),
      (valid_lines_delivered _ _ _ Ha).
Qed.

Lemma malformed_line_skipped_witness :
  drive (Some (AwaitRead OpenAIProvider.adapter reader_init))
    (map ReadValue [hi_line ++ firstn 9 truncated_line;
                    skipn 9 truncated_line ++ hi_line]
     ++ [ReadDone])
  = map OnChunk ([hi_delta] ++ [hi_delta]) ++ [OnDone].
Proof.
  refine (proj2 (proj2
            (malformed_line_skipped OpenAIProvider.adapter
               [hi_line ++ firstn 9 truncated_line;
                skipn 9 truncated_line ++ hi_line]
               [hi_text] [hi_text]
               (qjs "data: {'choices':[{'delta':{'cont")
               (qjs "{'choices':[{'delta':{'cont") _ _ _))
            [hi_delta] [hi_delta] _ _).
  - vm_compute; reflexivity.
  - vm_compute; reflexivity.
  - vm_compute; reflexivity.
  - constructor; [|constructor].
    exists hi_payload, hi_data; repeat split; vm_compute; reflexivity.
  - constructor; [|constructor].
    exists hi_payload, hi_data; repeat split; vm_compute; reflexivity.
Defined.

(** ** The adapters *)

(** C7. With a system prompt that is not empty, the Claude adapter sends
    it in the [system] field of the body and its [messages] hold the user
    prompt alone; the Gemini adapter sends one content with one part whose
    text is the system prompt, an empty line and the user prompt. *)
Theorem system_prompt_placement :
  forall (config : AIConfig) (systemPrompt userPrompt model apiKey : jsstring)
         (stream : bool),
    systemPrompt <> [] ->
    let claude :=
      body (ClaudeProvider.buildRequestConfig config systemPrompt userPrompt
              model apiKey stream) in
    let gemini :=
      body (GeminiProvider.buildRequestConfig config systemPrompt userPrompt
              model apiKey stream) in
    get claude (field "system") = Some (JString systemPrompt)
    /\ get claude (field "messages")
       = Some (JArray [user_message userPrompt])
    /\ get gemini (field "contents")
       = Some (JArray
                 [JObject
                    [prop "parts"
                       (JArray
                          [JObject
                             [prop "text"
                                (JString
                                   (systemPrompt ++ [10; 10]
                                    ++ userPrompt))]])]])
    /\ get gemini (field "system") = None.
Proof.
  intros config systemPrompt userPrompt model apiKey stream Hsys claude gemini.
  assert (Hcombined : GeminiProvider.combinedPrompt systemPrompt userPrompt
                      = systemPrompt ++ [10; 10] ++ userPrompt).
  { unfold GeminiProvider.combinedPrompt, str_truthy.
    destruct systemPrompt; [contradiction | reflexivity]. }
  split; [vm_compute; reflexivity|].
  split; [vm_compute; reflexivity|].
  split; [|vm_compute; reflexivity].
  cbv [gemini GeminiProvider.buildRequestConfig body].
  rewrite Hcombined.
  vm_compute; reflexivity.
Qed.

Lemma system_prompt_placement_witness :
  let claude :=
    body (ClaudeProvider.buildRequestConfig
            {| provider := js "claude"; apiKeys := [(js "claude", js "k")];
               model := js "m"; baseUrl := None; baseUrls := [];
               customModel := None; replyLanguage := None |}
            (js "S") (js "U") (js "m") (js "k") true) in
  get claude (field "system") = Some (JString (js "S"))
  /\ get claude (field "messages") = Some (JArray [user_message (js "U")]).
Proof.
  pose proof (system_prompt_placement
                {| provider := js "claude"; apiKeys := [(js "claude", js "k")];
                   model := js "m"; baseUrl := None; baseUrls := [];
                   customModel := None; replyLanguage := None |}
                (js "S") (js "U") (js "m") (js "k") true) as H.
  destruct H as [H1 [H2 _]]; [vm_compute; discriminate|].
  split; [exact H1 | exact H2].
Defined.

(** C9. The Gemini adapter puts [models/] before the model unless the
    model starts with it already: the name it builds always starts with
    [models/], what follows the prefix is the model itself or the model
    without its own prefix, building a name from a built name changes
    nothing, and the URL holds the built name between the base URL and the
    action. *)
Theorem gemini_model_prefix :
  forall (model : jsstring),
    JS.startsWith (GeminiProvider.fullModelName model) MODELS = true
    /\ (exists rest,
          GeminiProvider.fullModelName model = MODELS ++ rest
          /\ (model = rest \/ model = MODELS ++ rest))
    /\ GeminiProvider.fullModelName (GeminiProvider.fullModelName model)
       = GeminiProvider.fullModelName model
    /\ (JS.startsWith model MODELS = true ->
        GeminiProvider.fullModelName model = model)
    /\ (JS.startsWith model MODELS = false ->
        GeminiProvider.fullModelName model = MODELS ++ model)
    /\ (forall config systemPrompt userPrompt apiKey stream,
          exists action,
            url (GeminiProvider.buildRequestConfig config systemPrompt
                   userPrompt model apiKey stream)
            = str_or (baseUrl config) GeminiProvider.getDefaultBaseUrl
              ++ js "/" ++ GeminiProvider.fullModelName model ++ js ":"
              ++ action).
Proof.
  intros model.
  assert (Hfix : forall m, JS.startsWith m MODELS = true ->
                           GeminiProvider.fullModelName m = m).
  { intros m H; unfold GeminiProvider.fullModelName.
    change (js "models/") with MODELS; now rewrite H. }
  assert (Hstarts :
            JS.startsWith (GeminiProvider.fullModelName model) MODELS = true).
  { unfold GeminiProvider.fullModelName; change (js "models/") with MODELS.
    destruct (JS.startsWith model MODELS) eqn:E; [exact E|].
    apply startsWith_app. }
  split; [exact Hstarts|].
  split.
  { unfold GeminiProvider.fullModelName; change (js "models/") with MODELS.
    destruct (JS.startsWith model MODELS) eqn:E.
    - exists (JS.slice (List.length MODELS) model).
      split; [|right]; now apply startsWith_split.
    - exists model; split; [reflexivity | now left]. }
  split; [now apply Hfix|].
  split; [apply Hfix|].
  split.
  - intros H; unfold GeminiProvider.fullModelName.
    change (js "models/") with MODELS; now rewrite H.
  - intros config systemPrompt userPrompt apiKey stream.
    eexists; unfold GeminiProvider.buildRequestConfig, url.
    repeat rewrite <- app_assoc; reflexivity.
Qed.

Lemma gemini_model_prefix_witness :
  GeminiProvider.fullModelName (js "models/gemini-pro") = js "models/gemini-pro"
  /\ GeminiProvider.fullModelName (js "gemini-pro") = js "models/gemini-pro".
Proof.
  split.
  - apply (proj1 (proj2 (proj2 (proj2
             (gemini_model_prefix (js "models/gemini-pro")))))).
    reflexivity.
  - apply (proj1 (proj2 (proj2 (proj2 (proj2
             (gemini_model_prefix (js "gemini-pro"))))))).
    reflexivity.
Defined.

(** ** Empty deltas *)

Lemma registered_adapters (name : jsstring) (p : ProviderConfig) :
  JS.own name providers = Some p -> exists d, p = adapter_of d.
Proof.
  cbv [providers JS.own].
  repeat match goal with
         | |- context [JS.eqb ?k name] => destruct (JS.eqb k name)
         end;
    intros H; inversion H;
    solve [now exists OpenAI | now exists Gemini | now exists Claude].
Qed.

Lemma or_null_absent (v : option json) :
  absent_or_empty v = true -> or_null v = JNull.
Proof.
  destruct v as [[| | | [|] | |]|]; simpl; try discriminate; reflexivity.
Qed.

Lemma parse_absent (d : dialect) (data : json) :
  absent_or_empty (extracted_content d data) = true ->
  absent_or_empty (extracted_reasoning d data) = true ->
  parseStreamChunk (adapter_of d) data
  = {| content := JNull; reasoning := JNull |}.
Proof.
  destruct d; simpl; intros Hc Hr.
  - unfold OpenAIProvider.parseStreamChunk.
    now rewrite (or_null_absent _ Hc), (or_null_absent _ Hr).
  - unfold GeminiProvider.parseStreamChunk.
    now rewrite (or_null_absent _ Hc).
  - unfold ClaudeProvider.parseStreamChunk.
    destruct (ClaudeProvider.is_content_block_delta data); [|reflexivity].
    now rewrite (or_null_absent _ Hc).
Qed.

Lemma truthy_string (s : jsstring) : truthy (JString s) = true <-> s <> [].
Proof. destruct s; simpl; split; congruence. Qed.

(** C8, as the code has it. A payload in which the adapter finds neither
    a content delta nor a reasoning delta, each being absent, [null] or
    the empty string, parses to a chunk with both fields [null], and
    [onChunk] is not called for it. [onChunk] is called exactly when the
    content or the reasoning of the chunk is truthy, which for a string
    means it is not empty; a truthy value that is no string passes the
    guard as well. *)
Theorem empty_delta_not_emitted :
  (forall (d : dialect) (data : json),
      absent_or_empty (extracted_content d data) = true ->
      absent_or_empty (extracted_reasoning d data) = true ->
      parseStreamChunk (adapter_of d) data
      = {| content := JNull; reasoning := JNull |})
  /\ (forall (d : dialect) (line dataStr : jsstring) (data : json),
        JS.trim line = DATA_PREFIX ++ dataStr ->
        JSON.parse dataStr = Some data ->
        absent_or_empty (extracted_content d data) = true ->
        absent_or_empty (extracted_reasoning d data) = true ->
        process_line (adapter_of d) line = [])
  /\ (forall (provider : ProviderConfig) (line : jsstring)
             (chunkData : StreamChunk),
        In chunkData (process_line provider line) ->
        truthy (content chunkData) = true
        \/ truthy (reasoning chunkData) = true)
  /\ (forall s : jsstring, truthy (JString s) = true <-> s <> [])
  /\ (forall (provider : ProviderConfig) (line dataStr : jsstring)
             (data : json),
        JS.trim line = DATA_PREFIX ++ dataStr ->
        JSON.parse dataStr = Some data ->
        truthy (content (parseStreamChunk provider data)) = true
        \/ truthy (reasoning (parseStreamChunk provider data)) = true ->
        process_line provider line = [parseStreamChunk provider data]).
Proof.
  split; [exact parse_absent|].
  split; [|split; [|split; [exact truthy_string|]]].
  - intros d line dataStr data Hline Hparse Hc Hr.
    rewrite (process_line_prefixed _ _ _ Hline).
    destruct (JS.eqb dataStr DONE_SENTINEL); [reflexivity|].
    unfold try_emit; rewrite Hparse, (parse_absent d data Hc Hr).
    reflexivity.
  - intros provider line chunkData.
    unfold process_line, try_emit.
    destruct (negb (str_truthy (JS.trim line))); [intros []|].
    destruct (JS.startsWith (JS.trim line) DATA_PREFIX); [|intros []].
    destruct (JS.eqb (JS.slice 6 (JS.trim line)) DONE_SENTINEL); [intros []|].
    destruct (JSON.parse (JS.slice 6 (JS.trim line))) as [data|]; [|intros []].
    destruct (has_delta (parseStreamChunk provider data)) eqn:E; [|intros []].
    intros [<- | []]; now apply orb_true_iff.
  - intros provider line dataStr data Hline Hparse Ht.
    apply valid_line_delivered.
    exists dataStr, data; repeat split; try assumption.
    now apply orb_true_iff.
Qed.

Lemma empty_delta_not_emitted_witness :
  process_line OpenAIProvider.adapter empty_content_line = []
  /\ parseStreamChunk OpenAIProvider.adapter (JObject [])
     = {| content := JNull; reasoning := JNull |}.
Proof.
  split.
  - apply (proj1 (proj2 empty_delta_not_emitted) OpenAI empty_content_line
             (qjs "{'choices':[{'delta':{'content':'','role':'assistant'}}]}")
             (JObject
                [(js "choices",
                  JArray
                    [JObject
                       [(js "delta",
                         JObject [(js "content", JString []);
                                  (js "role", JString (js "assistant"))])]])]));
      vm_compute; reflexivity.
  - apply (proj1 empty_delta_not_emitted OpenAI (JObject []));
      vm_compute; reflexivity.
Defined.

(** A content delta that is a number, or [true], is no string, and
    [onChunk] is called with it all the same. *)
Lemma nonstring_delta_emitted :
  process_line OpenAIProvider.adapter number_content_line
  = [{| content := JNumber 42 0; reasoning := JNull |}]
  /\ process_line OpenAIProvider.adapter true_content_line
     = [{| content := JBool true; reasoning := JNull |}].
Proof. split; vm_compute; reflexivity. Qed.

(** ** The port *)

Lemma callback_connected g p e : connected (callback g p e) = connected p.
Proof.
  destruct e; simpl; unfold report_error, safePostMessage;
    repeat match goal with |- context [if ?b then _ else _] => destruct b eqn:? end;
    simpl; congruence.
Qed.

Lemma callback_invocations g p e : invocations (callback g p e) = invocations p.
Proof.
  destruct e; simpl; unfold report_error, safePostMessage;
    repeat match goal with |- context [if ?b then _ else _] => destruct b end;
    reflexivity.
Qed.

Lemma callback_posted g p e :
  posted (callback g p e) =
  posted p ++ map (pair g) (posts_of (connected p) (is_aborted p g) e).
Proof.
  destruct e; simpl; unfold report_error, safePostMessage, posts_of;
    repeat match goal with |- context [if ?b then _ else _] => destruct b end;
    simpl; now rewrite ?app_nil_r.
Qed.

Lemma callbacks_connected g es p :
  connected (fold_left (callback g) es p) = connected p.
Proof.
  revert p; induction es as [|e es IH]; intros p; simpl; [reflexivity|].
  now rewrite IH, callback_connected.
Qed.

Lemma callbacks_invocations g es p :
  invocations (fold_left (callback g) es p) = invocations p.
Proof.
  revert p; induction es as [|e es IH]; intros p; simpl; [reflexivity|].
  now rewrite IH, callback_invocations.
Qed.

Lemma callbacks_posted g es p :
  posted (fold_left (callback g) es p) =
  posted p
  ++ map (pair g) (flat_map (posts_of (connected p) (is_aborted p g)) es).
Proof.
  revert p; induction es as [|e es IH]; intros p; simpl.
  - now rewrite app_nil_r.
  - rewrite IH, callback_posted, callback_connected.
    assert (E : is_aborted (callback g p e) g = is_aborted p g)
      by (unfold is_aborted; now rewrite callback_invocations).
    rewrite E.
    now rewrite <- app_assoc, map_app.
Qed.

Lemma update_length {A} n (f : A -> A) l :
  List.length (update n f l) = List.length l.
Proof.
  revert n; induction l as [|x l IH]; intros [|n]; simpl; auto.
Qed.

Lemma nth_error_update {A} n m (f : A -> A) l :
  nth_error (update n f l) m =
  if Nat.eqb n m then option_map f (nth_error l m) else nth_error l m.
Proof.
  revert n m; induction l as [|x l IH]; intros [|n] [|m]; simpl; auto;
    now destruct (Nat.eqb n m).
Qed.

Lemma events_of_app g g' p ms :
  map snd (filter (fun e => Nat.eqb (fst e) g) (posted p ++ map (pair g') ms)) =
  events_of g p ++ (if Nat.eqb g' g then ms else []).
Proof.
  unfold events_of; rewrite filter_app, map_app; f_equal.
  induction ms as [|m ms IH]; simpl.
  - now destruct (Nat.eqb g' g).
  - destruct (Nat.eqb g' g) eqn:E; simpl; [now f_equal | exact IH].
Qed.

Lemma set_stage_aborted g s p g' :
  is_aborted (set_stage g s p) g' = is_aborted p g'.
Proof.
  unfold is_aborted, set_stage; simpl; rewrite nth_error_update.
  destruct (Nat.eqb g g'), (nth_error (invocations p) g'); reflexivity.
Qed.

Lemma settle_aborted g i r p g' :
  is_aborted (settle g i r p) g' = is_aborted p g'.
Proof.
  unfold settle.
  destruct (at_stage i) as [|k|], r as [sp up|e|r]; try reflexivity;
    rewrite ?set_stage_aborted.
  - reflexivity.
  - change (report_error g e p) with (callback g p (OnError e)).
    unfold is_aborted; now rewrite callback_invocations.
  - destruct (resume k r) as [es k']; rewrite set_stage_aborted.
    unfold is_aborted; now rewrite callbacks_invocations.
Qed.

Lemma settle_posted g i r p :
  posted (settle g i r p) = posted p ++ map (pair g) (settle_posts p g i r).
Proof.
  unfold settle, settle_posts.
  destruct (at_stage i) as [|k|], r as [sp up|e|r]; simpl;
    rewrite ?app_nil_r; try reflexivity.
  - apply (callback_posted g p (OnError e)).
  - destruct (resume k r) as [es k']; simpl.
    apply callbacks_posted.
Qed.

Lemma occur_events g p o :
  events_of g (occur p o) =
  events_of g p
  ++ match o with
     | Settle g' r =>
         match nth_error (invocations p) g' with
         | Some i => if Nat.eqb g' g then settle_posts p g' i r else []
         | None => []
         end
     | _ => []
     end.
Proof.
  destruct o as [a| |g' r]; simpl; rewrite ?app_nil_r; try reflexivity.
  destruct (nth_error (invocations p) g') as [i|]; [|now rewrite app_nil_r].
  unfold events_of at 1; rewrite settle_posted.
  apply events_of_app.
Qed.

Lemma abort_controller_keeps p g :
  is_aborted p g = true ->
  exists i, nth_error (abort_controller p) g = Some i /\ aborted i = true.
Proof.
  unfold is_aborted, abort_controller; intros H.
  destruct (nth_error (invocations p) g) as [i|] eqn:E; [|discriminate].
  destruct (controller p) as [c|]; [|now exists i].
  rewrite nth_error_update, E.
  destruct (Nat.eqb c g); [|now exists i].
  eexists; split; reflexivity.
Qed.

(** An aborted signal stays aborted. *)
Lemma occur_keeps_abort p o g :
  is_aborted p g = true -> is_aborted (occur p o) g = true.
Proof.
  intros H; destruct o as [a| |g' r]; simpl.
  - destruct (abort_controller_keeps p g H) as [i [Hi Ha]].
    unfold is_aborted; simpl.
    rewrite nth_error_app1 by (apply nth_error_Some; congruence).
    now rewrite Hi.
  - destruct (abort_controller_keeps p g H) as [i [Hi Ha]].
    unfold is_aborted; simpl; now rewrite Hi.
  - destruct (nth_error (invocations p) g'); [|exact H].
    now rewrite settle_aborted.
Qed.


(** With the signal aborted, a reply the transport can give makes
    [streamAI] call nothing that posts. *)
Lemma resume_aborted_silent c k r :
  (if bound_to_signal k then is_rejection r else true) = true ->
  flat_map (posts_of c true) (fst (resume k r)) = [].
Proof.
  destruct k as [sp up|cfg pr|cfg resp|pr st]; simpl; intros H.
  - assert (W : forall cfg, flat_map (posts_of c true)
                              (fst (with_config sp up cfg)) = []).
    { intros cfg; unfold with_config, throw.
      destruct cfg as [cfg|]; [|now destruct c].
      destruct (JS.own (provider cfg) (apiKeys cfg)) as [key|];
        [|now destruct c].
      destruct (negb (str_truthy key)); [now destruct c|].
      destruct (JS.own (provider cfg) providers); now destruct c. }
    destruct r; try apply W; now destruct c.
  - destruct r; try discriminate; now destruct c.
  - destruct r; try discriminate; now destruct c.
  - destruct r; try discriminate; now destruct c.
Qed.


Lemma occur_aborted_silent g p o :
  is_aborted p g = true ->
  honours_abort p o = true ->
  events_of g (occur p o) = events_of g p.
Proof.
  intros H Hh; rewrite occur_events.
  rewrite <- (app_nil_r (events_of g p)) at 2; f_equal.
  destruct o as [a| |g' r]; try reflexivity.
  destruct (nth_error (invocations p) g') as [i|] eqn:Ei; [|reflexivity].
  destruct (Nat.eqb g' g) eqn:E; [|reflexivity].
  apply Nat.eqb_eq in E; subst g'.
  unfold settle_posts; rewrite H.
  unfold honours_abort in Hh.
  unfold is_aborted in H; rewrite Ei in H.
  rewrite Ei, H in Hh; revert Hh.
  destruct (at_stage i) as [|k|], r as [sp up|e|r]; try reflexivity.
  - now destruct (connected p).
  - simpl; apply resume_aborted_silent.
Qed.

Lemma abort_controller_length p :
  List.length (abort_controller p) = List.length (invocations p).
Proof.
  unfold abort_controller; destruct (controller p); [|reflexivity].
  apply update_length.
Qed.

Lemma callbacks_controller g es p :
  controller (fold_left (callback g) es p) = controller p
  \/ controller (fold_left (callback g) es p) = None.
Proof.
  revert p; induction es as [|e es IH]; intros p; simpl; [now left|].
  destruct (IH (callback g p e)) as [-> | ->]; [|now right].
  destruct e; simpl; unfold report_error, safePostMessage;
    repeat match goal with |- context [if ?b then _ else _] => destruct b end;
    simpl; auto.
Qed.

Lemma occur_controller_bound p o :
  controller_bound p -> controller_bound (occur p o).
Proof.
  unfold controller_bound; intros H; destruct o as [a| |g r]; simpl.
  - rewrite length_app, abort_controller_length; simpl; lia.
  - exact I.
  - destruct (nth_error (invocations p) g) as [i|]; [|exact H].
    unfold settle.
    destruct (at_stage i) as [|k|], r as [sp up|e|r]; try exact H; simpl.
    + now rewrite update_length.
    + change (report_error g e p) with (fold_left (callback g) [OnError e] p).
      rewrite update_length, callbacks_invocations.
      destruct (callbacks_controller g [OnError e] p) as [E | E];
        rewrite E; [exact H | exact I].
    + destruct (resume k r) as [es k']; simpl.
      rewrite update_length, callbacks_invocations.
      destruct (callbacks_controller g es p) as [E | E];
        rewrite E; [exact H | exact I].
Qed.

Lemma run_controller_bound os p :
  controller_bound p -> controller_bound (run p os).
Proof.
  revert p; induction os as [|o os IH]; intros p H; simpl; [exact H|].
  apply IH, occur_controller_bound, H.
Qed.

(** Both a disconnect and a new message abort the signal of the
    invocation the controller variable refers to. *)
Lemma abort_triggers p g a :
  controller_bound p -> controller p = Some g ->
  is_aborted (occur p Disconnect) g = true
  /\ is_aborted (occur p (Message a)) g = true.
Proof.
  unfold controller_bound; intros Hb Hc; rewrite Hc in Hb.
  assert (E : exists i, nth_error (abort_controller p) g = Some i
                        /\ aborted i = true).
  { unfold abort_controller; rewrite Hc, nth_error_update, Nat.eqb_refl.
    destruct (nth_error (invocations p) g) as [i|] eqn:Ei.
    - eexists; split; reflexivity.
    - apply nth_error_None in Ei; lia. }
  destruct E as [i [Hi Ha]]; unfold is_aborted; simpl; split.
  - now rewrite Hi.
  - rewrite nth_error_app1 by (rewrite abort_controller_length; exact Hb).
    now rewrite Hi.
Qed.

Lemma abort_controller_stage p g :
  option_map at_stage (nth_error (abort_controller p) g) = stage_of p g.
Proof.
  unfold abort_controller, stage_of.
  destruct (controller p) as [c|]; [|reflexivity].
  rewrite nth_error_update.
  destruct (Nat.eqb c g), (nth_error (invocations p) g); reflexivity.
Qed.

Lemma settle_stage_other g g' i r p :
  g' <> g -> stage_of (settle g' i r p) g = stage_of p g.
Proof.
  intros Hne; apply Nat.eqb_neq in Hne.
  unfold settle, stage_of.
  destruct (at_stage i) as [|k|], r as [sp up|e|r]; try reflexivity; simpl.
  - rewrite nth_error_update, Hne; reflexivity.
  - change (report_error g' e p) with (callback g' p (OnError e)).
    rewrite nth_error_update, Hne, callback_invocations; reflexivity.
  - destruct (resume k r) as [es k']; simpl.
    rewrite nth_error_update, Hne, callbacks_invocations; reflexivity.
Qed.

(** ** One generation at a time *)

Lemma abort_controller_spared p g i' :
  nth_error (abort_controller p) g = Some i' ->
  aborted i' = false ->
  controller p <> Some g
  /\ is_aborted p g = false
  /\ stage_of p g = Some (at_stage i').
Proof.
  unfold abort_controller, is_aborted, stage_of.
  destruct (controller p) as [c|].
  - rewrite nth_error_update.
    destruct (Nat.eqb c g) eqn:E;
      destruct (nth_error (invocations p) g) as [i|]; simpl;
      intros H Ha; inversion H; subst i'; simpl in *; try discriminate.
    apply Nat.eqb_neq in E.
    repeat split; congruence.
  - intros H Ha; rewrite H; simpl.
    repeat split; [discriminate | exact Ha].
Qed.

Lemma resume_shape k r :
  match snd (resume k r) with
  | Some _ => existsb terminal (fst (resume k r)) = false
  | None => exists e, fst (resume k r) = [e] /\ terminal e = true
  end.
Proof.
  assert (W : forall sp up cfg,
             match snd (with_config sp up cfg) with
             | Some _ => existsb terminal (fst (with_config sp up cfg)) = false
             | None => exists e, fst (with_config sp up cfg) = [e]
                                 /\ terminal e = true
             end).
  { intros sp up cfg; unfold with_config, throw.
    destruct cfg as [cfg|]; [|eexists; split; reflexivity].
    destruct (JS.own (provider cfg) (apiKeys cfg)) as [key|];
      [|eexists; split; reflexivity].
    destruct (negb (str_truthy key)); [eexists; split; reflexivity|].
    destruct (JS.own (provider cfg) providers);
      [reflexivity | eexists; split; reflexivity]. }
  destruct k as [sp up|cfg pr|cfg resp|pr st], r; simpl;
    try reflexivity; try apply W;
    try (eexists; split; reflexivity).
  - destruct (negb (ok response)); [reflexivity|].
    destruct (negb (has_body response));
      [eexists; split; reflexivity | reflexivity].
  - destruct (read_value pr st value) as [st' chunks]; simpl.
    induction chunks; simpl; auto.
Qed.

Lemma callbacks_quiet g es p :
  existsb terminal es = false ->
  controller (fold_left (callback g) es p) = controller p.
Proof.
  revert p; induction es as [|e es IH]; intros p H; simpl in *; [reflexivity|].
  apply orb_false_iff in H; destruct H as [He Hes].
  rewrite IH by exact Hes.
  destruct e; try discriminate; simpl; unfold safePostMessage;
    now destruct (connected p).
Qed.

Lemma callback_terminal g e p :
  terminal e = true ->
  is_aborted p g = false ->
  controller (callback g p e) = None.
Proof.
  destruct e; try discriminate; intros _ H; simpl.
  - reflexivity.
  - unfold report_error; rewrite H; reflexivity.
Qed.

(** With the signal aborted, what a reply the transport can give makes
    [streamAI] do leaves the controller alone. *)
Lemma resume_aborted_controller g k r p :
  (if bound_to_signal k then is_rejection r else true) = true ->
  is_aborted p g = true ->
  controller (fold_left (callback g) (fst (resume k r)) p) = controller p.
Proof.
  intros H Ha.
  assert (E : forall m, controller (fold_left (callback g) [OnError m] p)
                        = controller p)
    by (intros m; simpl; unfold report_error; now rewrite Ha).
  destruct k as [sp up|cfg pr|cfg resp|pr st]; simpl in H.
  - assert (W : forall cfg,
               controller (fold_left (callback g)
                             (fst (with_config sp up cfg)) p)
               = controller p).
    { intros cfg; unfold with_config, throw.
      destruct cfg as [cfg|]; [|apply E].
      destruct (JS.own (provider cfg) (apiKeys cfg)) as [key|]; [|apply E].
      destruct (negb (str_truthy key)); [apply E|].
      destruct (JS.own (provider cfg) providers); [reflexivity | apply E]. }
    destruct r; try apply W; reflexivity.
  - destruct r; try discriminate; apply E.
  - destruct r; try discriminate; apply E.
  - destruct r; try discriminate; apply E.
Qed.

Lemma settle_stage_same g i r p :
  nth_error (invocations p) g = Some i ->
  running (settle g i r p) g = true ->
  running p g = true.
Proof.
  intros Hi; unfold running, stage_of at 2; rewrite Hi; simpl.
  unfold settle.
  destruct (at_stage i) as [|k|] eqn:Es; try reflexivity.
  destruct r; unfold stage_of; rewrite Hi; simpl; now rewrite Es.
Qed.

(** The controller after invocation [g] is settled: unchanged, or
    cleared, and cleared only by a live [g] that returns. *)
Lemma settle_controller g i r p :
  nth_error (invocations p) g = Some i ->
  honours_abort p (Settle g r) = true ->
  controller (settle g i r p) = controller p
  \/ (controller (settle g i r p) = None
      /\ aborted i = false
      /\ running p g = true
      /\ running (settle g i r p) g = false).
Proof.
  intros Hi Hh; unfold honours_abort in Hh; rewrite Hi in Hh.
  assert (Hab : is_aborted p g = aborted i)
    by (unfold is_aborted; now rewrite Hi).
  assert (HrunP : at_stage i <> Returned -> running p g = true).
  { unfold running, stage_of; rewrite Hi; simpl.
    destruct (at_stage i); congruence. }
  assert (Hret : forall q,
             invocations q = invocations p ->
             running (set_stage g Returned q) g = false).
  { intros q Hq; unfold running, stage_of; simpl.
    now rewrite nth_error_update, Nat.eqb_refl, Hq, Hi. }
  unfold settle.
  destruct (at_stage i) as [|k|] eqn:Es; destruct r as [sp up|e|r];
    try (left; reflexivity).
  - destruct (aborted i) eqn:Ea.
    + left; change (controller (report_error g e p) = controller p).
      unfold report_error; now rewrite Hab.
    + right; split; [|split; [|split]].
      * change (controller (callback g p (OnError e)) = None).
        now apply callback_terminal.
      * reflexivity.
      * apply HrunP; discriminate.
      * apply Hret, (callback_invocations g p (OnError e)).
  - pose proof (resume_shape k r) as Hs.
    pose proof (resume_aborted_controller g k r p) as Hc.
    destruct (resume k r) as [es k'] eqn:Er; simpl in Hs, Hc.
    destruct (aborted i) eqn:Ea.
    + left; simpl in Hh.
      change (controller (fold_left (callback g) es p) = controller p).
      apply Hc; [exact Hh | exact Hab].
    + destruct k' as [k2|].
      * left.
        change (controller (fold_left (callback g) es p) = controller p).
        now apply callbacks_quiet.
      * right; destruct Hs as [e [-> He]].
        split; [|split; [|split]].
        -- change (controller (callback g p e) = None).
           now apply callback_terminal.
        -- reflexivity.
        -- apply HrunP; discriminate.
        -- apply Hret, (callback_invocations g p e).
Qed.

Lemma running_other g g' i r p :
  g' <> g -> running (settle g' i r p) g = running p g.
Proof.
  intros H; unfold running; now rewrite settle_stage_other.
Qed.

(** Occurrences the transport allows keep at most one generation live,
    the one of the controller. *)
Lemma occur_single_generation p o :
  single_generation p ->
  honours_abort p o = true ->
  single_generation (occur p o).
Proof.
  intros I Hh g Hrun Hab; destruct o as [a| |g' r]; simpl in *.
  - unfold running, stage_of, is_aborted in Hrun, Hab; simpl in Hrun, Hab.
    destruct (Nat.lt_trichotomy g (List.length (abort_controller p)))
      as [Hlt | [-> | Hgt]].
    + rewrite nth_error_app1 in Hrun, Hab by exact Hlt.
      destruct (nth_error (abort_controller p) g) as [i'|] eqn:Ei;
        [|discriminate].
      destruct (abort_controller_spared p g i' Ei Hab) as [Hc [Ha Hs]].
      exfalso; apply Hc, I; [|exact Ha].
      unfold running; rewrite Hs; exact Hrun.
    + now rewrite abort_controller_length.
    + rewrite (proj2 (nth_error_None _ _)) in Hrun; [discriminate|].
      rewrite length_app; simpl; lia.
  - unfold running, stage_of, is_aborted in Hrun, Hab; simpl in Hrun, Hab.
    destruct (nth_error (abort_controller p) g) as [i'|] eqn:Ei;
      [|discriminate].
    destruct (abort_controller_spared p g i' Ei Hab) as [Hc [Ha Hs]].
    exfalso; apply Hc, I; [|exact Ha].
    unfold running; rewrite Hs; exact Hrun.
  - destruct (nth_error (invocations p) g') as [i|] eqn:Ei; [|now apply I].
    rewrite settle_aborted in Hab.
    assert (Hrun' : running p g = true).
    { destruct (Nat.eq_dec g' g) as [-> | Hne].
      - now apply (settle_stage_same g i r p Ei).
      - now rewrite running_other in Hrun. }
    destruct (settle_controller g' i r p Ei) as [-> | [Hc [Ha [Hr Hr']]]].
    + unfold honours_abort; now rewrite Ei.
    + now apply I.
    + assert (is_aborted p g' = false)
        by (unfold is_aborted; now rewrite Ei).
      pose proof (I g Hrun' Hab) as E1.
      pose proof (I g' Hr H) as E2.
      assert (g = g') by congruence; subst g'.
      congruence.
Qed.

Lemma run_single_generation os p :
  single_generation p ->
  honoured p os = true ->
  single_generation (run p os).
Proof.
  revert p; induction os as [|o os IH]; intros p I H; simpl; [exact I|].
  simpl in H; apply andb_true_iff in H; destruct H as [Ho Hos].
  apply IH; [now apply occur_single_generation | exact Hos].
Qed.



(** When [fetch], [response.text()] and [reader.read()] reject once the
    signal is aborted, an aborted generation posts nothing more on a port
    that is still connected, and the controller variable always refers to
    the one generation that runs, so that a disconnect or a new message
    aborts every generation that has not returned. *)
Lemma silent_when_transport_rejects :
  (forall (before : list occurrence) (g : nat) (action : jsstring),
      honoured port_open before = true ->
      running (run port_open before) g = true ->
      is_aborted (occur (run port_open before) Disconnect) g = true
      /\ is_aborted (occur (run port_open before) (Message action)) g
         = true)
  /\ (forall (p : port) (g : nat) (os : list occurrence),
        is_aborted p g = true ->
        honoured p os = true ->
        events_of g (run p os) = events_of g p).
Proof.
  split.
  - intros before g action Hh Hrun.
    destruct (is_aborted (run port_open before) g) eqn:Ha.
    + split; now apply occur_keeps_abort.
    + apply abort_triggers; [apply run_controller_bound; exact I|].
      apply (run_single_generation before port_open); try assumption.
      intros g' Hg'; unfold running, stage_of in Hg'; simpl in Hg'.
      now destruct g'.
  - intros p g os; revert p; induction os as [|o os IH]; intros p H Hh; simpl.
    + reflexivity.
    + simpl in Hh; apply andb_true_iff in Hh; destruct Hh as [Ho Hos].
      rewrite IH by (try apply occur_keeps_abort; assumption).
      now apply occur_aborted_silent.
Qed.

(** What the listener does for an aborted generation that is inside
    [streamAI] when an awaited promise settles, on a port that is still
    connected: the [onError] of the call is dropped, and its [onChunk] and
    [onDone] are posted as for any other generation. *)
Lemma aborted_settle_posts (p : port) (g : nat) (k : awaiting)
    (r : settled) :
  connected p = true ->
  is_aborted p g = true ->
  stage_of p g = Some (InStreamAI k) ->
  events_of g (occur p (Settle g (Service r)))
  = events_of g p ++ flat_map (posts_of true true) (fst (resume k r)).
Proof.
  intros Hc Ha Hs; rewrite occur_events; f_equal.
  unfold stage_of in Hs.
  destruct (nth_error (invocations p) g) as [i|]; [|discriminate].
  injection Hs as Hs.
  rewrite Nat.eqb_refl; unfold settle_posts; now rewrite Hs, Hc, Ha.
Qed.


(** An invocation that has returned stays so and posts nothing more. *)
Lemma occur_returned g p o :
  stage_of p g = Some Returned ->
  stage_of (occur p o) g = Some Returned
  /\ events_of g (occur p o) = events_of g p.
Proof.
  intros H; split.
  - destruct o as [a| |g' r]; simpl.
    + unfold stage_of; simpl.
      assert (Hlt : (g < List.length (abort_controller p))%nat).
      { rewrite abort_controller_length; apply nth_error_Some.
        unfold stage_of in H.
        destruct (nth_error (invocations p) g); [congruence | discriminate]. }
      rewrite nth_error_app1 by exact Hlt.
      now rewrite abort_controller_stage.
    + unfold stage_of; simpl; now rewrite abort_controller_stage.
    + destruct (nth_error (invocations p) g') as [i|] eqn:Ei; [|exact H].
      destruct (Nat.eq_dec g' g) as [-> | Hne].
      * unfold stage_of in H; rewrite Ei in H; simpl in H.
        injection H as H.
        unfold settle; rewrite H.
        unfold stage_of; rewrite Ei; simpl; now rewrite H.
      * now rewrite settle_stage_other.
  - rewrite occur_events.
    rewrite <- (app_nil_r (events_of g p)) at 2; f_equal.
    destruct o as [a| |g' r]; try reflexivity.
    destruct (nth_error (invocations p) g') as [i|] eqn:Ei; [|reflexivity].
    destruct (Nat.eqb g' g) eqn:E; [|reflexivity].
    apply Nat.eqb_eq in E; subst g'.
    unfold stage_of in H; rewrite Ei in H; simpl in H; injection H as H.
    unfold settle_posts; now rewrite H.
Qed.

Lemma run_returned g os p :
  stage_of p g = Some Returned ->
  events_of g (run p os) = events_of g p.
Proof.
  revert p; induction os as [|o os IH]; intros p H; simpl; [reflexivity|].
  destruct (occur_returned g p o H) as [H1 H2].
  now rewrite IH.
Qed.

Lemma run_to_port_returned g rs q :
  stage_of q g = Some Returned -> run q (to_port g rs) = q.
Proof.
  intros Hq; induction rs as [|r rs IH]; simpl; [reflexivity|].
  unfold stage_of in Hq.
  destruct (nth_error (invocations q) g) as [j|]; [|discriminate].
  simpl in Hq; injection Hq as Hq.
  unfold settle; rewrite Hq; exact IH.
Qed.

(** While nothing else happens on the port, what an invocation posts is
    what the callbacks post for the effects of its [streamAI] call. *)
Lemma run_stream g replies :
  forall p i k,
    nth_error (invocations p) g = Some i ->
    at_stage i = InStreamAI k ->
    posted (run p (to_port g replies)) =
    posted p
    ++ map (pair g)
         (flat_map (posts_of (connected p) (aborted i))
            (drive (Some k) replies)).
Proof.
  induction replies as [|r rs IH]; intros p i k Hi Hk; simpl.
  - now rewrite app_nil_r.
  - rewrite Hi; unfold settle; rewrite Hk.
    destruct (resume k r) as [es k'] eqn:Er.
    set (p1 := fold_left (callback g) es p).
    set (st := match k' with Some k2 => InStreamAI k2 | None => Returned end).
    assert (Hposted : posted (set_stage g st p1) =
                      posted p ++ map (pair g)
                        (flat_map (posts_of (connected p) (aborted i)) es)).
    { simpl; unfold p1; rewrite callbacks_posted.
      unfold is_aborted; now rewrite Hi. }
    assert (Hinv : nth_error (invocations (set_stage g st p1)) g =
                   Some {| aborted := aborted i; at_stage := st |}).
    { simpl; rewrite nth_error_update, Nat.eqb_refl.
      unfold p1; rewrite callbacks_invocations, Hi; reflexivity. }
    assert (Hconn : connected (set_stage g st p1) = connected p).
    { simpl; unfold p1; apply callbacks_connected. }
    destruct k' as [k2|].
    + rewrite (IH _ _ k2 Hinv eq_refl), Hposted, Hconn; simpl.
      now rewrite flat_map_app, map_app, app_assoc.
    + assert (Hret : stage_of (set_stage g st p1) g = Some Returned)
        by (unfold stage_of; now rewrite Hinv).
      rewrite (run_to_port_returned g rs _ Hret), Hposted.
      destruct rs; simpl; now rewrite app_nil_r.
Qed.

(** ** Starting a generation *)

Lemma first_message action systemPrompt userPrompt :
  streams action = true ->
  run port_open [Message action; Settle 0 (Prompts systemPrompt userPrompt)]
  = waiting_for_config systemPrompt userPrompt.
Proof.
  intros H; unfold run, port_open, waiting_for_config; cbn [fold_left].
  unfold occur at 2; cbn [invocations connected controller posted
                           abort_controller List.length app].
  rewrite H; reflexivity.
Qed.

Lemma with_config_unconfigured systemPrompt userPrompt config :
  unconfigured config ->
  exists message, with_config systemPrompt userPrompt config = throw message.
Proof.
  unfold unconfigured, key_absent, with_config.
  destruct config as [config|]; [|intros _; eexists; reflexivity].
  destruct (JS.own (provider config) (apiKeys config)) as [[|c key]|];
    try (intros _; eexists; reflexivity).
  intros [[] | ->]; eexists; reflexivity.
Qed.

(** C4. When the stored configuration is absent, or holds no key for its
    provider, or names a provider without adapter, [streamAI] calls
    [onError] once and does nothing else, whatever else the environment
    would answer: no [fetch], no [onChunk], no [onDone]. On the port, the
    generation of a streaming message posts that one [error] and nothing
    more, whatever happens later. A storage that fails counts as an
    absent configuration. *)
Theorem unconfigured_one_error :
  forall (systemPrompt userPrompt : jsstring) (config : option AIConfig),
    unconfigured config ->
    exists message,
      (forall rest,
          streamAI systemPrompt userPrompt (Config config :: rest)
          = [OnError message])
      /\ (forall action later,
            streams action = true ->
            events_of 0
              (run port_open
                 ([Message action; Settle 0 (Prompts systemPrompt userPrompt);
                   Settle 0 (Service (Config config))] ++ later))
            = [error message])
      /\ (forall failure rest,
            streamAI systemPrompt userPrompt (Rejected failure :: rest)
            = [OnError NOT_CONFIGURED]).
Proof.
  intros systemPrompt userPrompt config H.
  destruct (with_config_unconfigured systemPrompt userPrompt config H)
    as [message Hm].
  exists message; split; [|split].
  - intros rest; unfold streamAI; cbn [drive resume]; rewrite Hm.
    unfold throw; destruct rest; reflexivity.
  - intros action later Ha.
    change (run port_open
              ([Message action; Settle 0 (Prompts systemPrompt userPrompt);
                Settle 0 (Service (Config config))] ++ later))
      with (run (occur (run port_open
                          [Message action;
                           Settle 0 (Prompts systemPrompt userPrompt)])
                   (Settle 0 (Service (Config config)))) later).
    rewrite (first_message _ _ _ Ha).
    unfold waiting_for_config, occur; cbn [invocations nth_error].
    unfold settle; cbn [at_stage resume]; rewrite Hm.
    rewrite run_returned; reflexivity.
  - intros failure rest; unfold streamAI; cbn [drive resume with_config].
    unfold throw; destruct rest; reflexivity.
Qed.

Lemma unconfigured_one_error_witness :
  exists message,
    (forall rest,
        streamAI (js "S") (js "U") (Config (Some gemini_without_key) :: rest)
        = [OnError message])
    /\ (forall action later,
          streams action = true ->
          events_of 0
            (run port_open
               ([Message action; Settle 0 (Prompts (js "S") (js "U"));
                 Settle 0 (Service (Config (Some gemini_without_key)))]
                ++ later))
          = [error message])
    /\ (forall failure rest,
          streamAI (js "S") (js "U") (Rejected failure :: rest)
          = [OnError NOT_CONFIGURED]).
Proof.
  apply (unconfigured_one_error (js "S") (js "U") (Some gemini_without_key)).
  left; vm_compute; exact I.
Defined.

(** ** The scenario of the specification *)

(** C6. With the configuration and the prompts of the scenario, a
    response that is a success and whose body carries the bytes of the
    scenario, cut into values in any way, makes the port post chunk
    [Hel], chunk [lo] and [done], in this order and nothing else. *)
Theorem end_to_end_openai :
  forall (response : Response) (values : list (list Z)),
    ok response = true ->
    has_body response = true ->
    List.concat values = upstream ->
    posted (run port_open (scenario response values))
    = [(0%nat, chunk (JString (js "Hel")) JNull);
       (0%nat, chunk (JString (js "lo")) JNull);
       (0%nat, done)].
Proof.
  intros response values Hok Hbody Hbytes.
  unfold scenario.
  change (run port_open (?a ++ ?b)) with (run (run port_open a) b).
  rewrite first_message by reflexivity.
  rewrite (run_stream 0 _ (waiting_for_config (js "S") (js "U")) _ _
             eq_refl eq_refl).
  cbn [app drive resume].
  assert (Hcfg : with_config (js "S") (js "U") (Some openai_config)
                 = ([Fetch (OpenAIProvider.buildRequestConfig openai_config
                              (js "S") (js "U") (js "gpt-x") (js "k") true)],
                    Some (AwaitFetch openai_config OpenAIProvider.adapter)))
    by (unfold with_config; cbv [providers JS.own]; decide_keys;
        reflexivity).
  rewrite Hcfg.
  cbn [drive resume]; rewrite Hok, Hbody; cbn [negb app].
  rewrite read_loop_one_value, Hbytes.
  vm_compute; reflexivity.
Qed.

Lemma end_to_end_openai_witness :
  posted
    (run port_open
       (scenario
          {| ok := true; status := 200; statusText := js "OK";
             has_body := true |}
          [firstn 20 upstream; skipn 20 upstream]))
  = [(0%nat, chunk (JString (js "Hel")) JNull);
     (0%nat, chunk (JString (js "lo")) JNull);
     (0%nat, done)].
Proof.
  apply end_to_end_openai; vm_compute; reflexivity.
Defined.

(** ** Cancelling a generation that streams *)



(** The same for a value read after the abort: its chunk is posted. The
    silence of an aborted generation rests on the transport for [chunk]
    and [done]. *)
Example chunk_callback_unguarded :
  events_of 0 (run superseded [Settle 0 (Service (ReadValue hi_line))])
  = [chunk (JString (js "hi")) JNull; chunk (JString (js "hi")) JNull]
  /\ honoured superseded [Settle 0 (Service (ReadValue hi_line))] = false.
Proof. vm_compute; split; reflexivity. Qed.

(** ** Formatting subtitles *)

Lemma lastIndexOf_from_bound c s i found :
  found < i ->
  JS.lastIndexOf_from i found c s < i + JS.length s.
Proof.
  unfold JS.length; revert i found; induction s as [|d s IH];
    intros i found H; simpl JS.lastIndexOf_from.
  - simpl; lia.
  - change (List.length (d :: s)) with (S (List.length s)).
    rewrite Nat2Z.inj_succ.
    specialize (IH (i + 1) (if d =? c then i else found)).
    destruct (d =? c); lia.
Qed.

Lemma lastIndexOf_bound c s : JS.lastIndexOf c s < JS.length s.
Proof.
  unfold JS.lastIndexOf.
  pose proof (lastIndexOf_from_bound c s 0 (-1)); lia.
Qed.

Lemma substring0_length n s : 0 <= n -> JS.length (JS.substring0 n s) <= n.
Proof.
  intros H; unfold JS.length, JS.substring0.
  pose proof (firstn_le_length (Z.to_nat n) s).
  rewrite length_firstn; lia.
Qed.

Lemma cutPoint_bound formattedText :
  0 <= cutPoint formattedText <= 8000.
Proof.
  unfold cutPoint.
  pose proof (lastIndexOf_bound FULL_STOP (JS.substring0 8000 formattedText)).
  pose proof (lastIndexOf_bound 32 (JS.substring0 8000 formattedText)).
  pose proof (substring0_length 8000 formattedText).
  destruct (7000 <? JS.lastIndexOf FULL_STOP _) eqn:E1;
    [apply Z.ltb_lt in E1; lia|].
  destruct (7000 <? JS.lastIndexOf 32 _) eqn:E2;
    [apply Z.ltb_lt in E2; lia|].
  lia.
Qed.

Lemma format_texts_bounded texts :
  JS.length (format_texts texts) <= 8000
  /\ is_trimmed (format_texts texts) = true.
Proof.
  unfold format_texts.
  set (formattedText := JS.trim _).
  destruct (JS.length formattedText <=? 8000) eqn:E.
  - split; [now apply Z.leb_le | apply trim_is_trimmed].
  - split; [|apply trim_is_trimmed].
    pose proof (cutPoint_bound formattedText) as Hc.
    pose proof (substring0_length (cutPoint formattedText) formattedText).
    pose proof (trim_length
                  (JS.substring0 (cutPoint formattedText) formattedText)).
    unfold JS.length in *; lia.
Qed.

Lemma subtitle_text_throws subtitle :
  throws (subtitle_text subtitle) = unusable subtitle.
Proof.
  unfold subtitle_text, unusable.
  destruct subtitle; try reflexivity;
    match goal with
    | |- context [first_truthy ?x] =>
        destruct (first_truthy x) as [[| | | | |]|]; reflexivity
    end.
Qed.

Lemma map_texts_throws subtitles :
  throws (map_texts subtitles) = existsb unusable subtitles.
Proof.
  induction subtitles as [|subtitle rest IH]; simpl; [reflexivity|].
  rewrite <- subtitle_text_throws, <- IH.
  destruct (subtitle_text subtitle); [|reflexivity].
  now destruct (map_texts rest).
Qed.

(** C10 as the code has it. [formatSubtitlesForAI] throws exactly when
    its argument is not an array, is an empty array, or holds an element
    it cannot read: [null], or an element whose first truthy [text],
    [content] or [transcript] is not a string. Otherwise it returns a
    string of at most 8000 code units that neither starts nor ends with
    white space. *)
Theorem formatSubtitlesForAI_total :
  forall (subtitles : option json),
    (throws (formatSubtitlesForAI subtitles) = true <->
     not_array_or_empty subtitles = true
     \/ exists items,
          subtitles = Some (JArray items) /\ existsb unusable items = true)
    /\ (forall text,
          formatSubtitlesForAI subtitles = Returns text ->
          JS.length text <= 8000 /\ is_trimmed text = true).
Proof.
  intros subtitles; split.
  - unfold formatSubtitlesForAI, not_array_or_empty.
    destruct subtitles as [[| | | |[|first rest]|]|];
      try (split; [now left | reflexivity]).
    pose proof (map_texts_throws (first :: rest)) as H.
    destruct (map_texts (first :: rest)) as [texts|e]; simpl in H |- *.
    + split; [discriminate|].
      intros [Hd | [items [Hi He]]]; [discriminate|].
      injection Hi as <-; simpl in He; congruence.
    + split; [|reflexivity].
      intros _; right; exists (first :: rest); split; [reflexivity|].
      now simpl.
  - intros text; unfold formatSubtitlesForAI.
    destruct subtitles as [[| | | |[|first rest]|]|]; try discriminate.
    destruct (map_texts (first :: rest)) as [texts|e]; [|discriminate].
    intros H; injection H as <-.
    apply format_texts_bounded.
Qed.

(** C10 as stated fails: an array that is not empty makes the call throw
    when an element is [null] or carries a text that is not a string. *)
Lemma throws_on_nonempty_array :
  JSON.parse (js "[null]") = null_element
  /\ not_array_or_empty null_element = false
  /\ formatSubtitlesForAI null_element = Throws TypeError
  /\ not_array_or_empty numeric_text = false
  /\ formatSubtitlesForAI numeric_text = Throws TypeError.
Proof. vm_compute; repeat split. Qed.

Lemma formatSubtitlesForAI_total_witness :
  formatSubtitlesForAI two_subtitles = Returns (js "hello world")
  /\ JS.length (js "hello world") <= 8000
  /\ is_trimmed (js "hello world") = true
  /\ throws (formatSubtitlesForAI null_element) = true.
Proof.
  assert (E : formatSubtitlesForAI two_subtitles = Returns (js "hello world"))
    by (vm_compute; reflexivity).
  split; [exact E|].
  split; [|split].
  - exact (proj1 (proj2 (formatSubtitlesForAI_total two_subtitles) _ E)).
  - exact (proj2 (proj2 (formatSubtitlesForAI_total two_subtitles) _ E)).
  - apply (proj2 (proj1 (formatSubtitlesForAI_total null_element))).
    right; exists [JNull]; split; reflexivity.
Defined.

(** ** The callbacks of one call *)

Lemma drive_None replies : drive None replies = [].
Proof. now destruct replies. Qed.

Lemma after_fetch_chunks chunks es :
  after_fetch (map OnChunk chunks ++ es) = after_fetch es.
Proof. induction chunks as [|c cs IH]; simpl; auto. Qed.

Lemma drive_after_fetch replies :
  forall k, bound_to_signal k = true ->
            after_fetch (drive (Some k) replies) = true.
Proof.
  induction replies as [|r rs IH]; intros k Hk; [reflexivity|].
  destruct k as [sp up|cfg pr|cfg resp|pr st]; [discriminate| | |];
    destruct r; cbn [drive resume throw app];
    rewrite ?drive_None; try reflexivity; try (apply IH; reflexivity).
  - destruct (negb (ok response)); [apply IH; reflexivity|].
    destruct (negb (has_body response));
      [unfold throw; cbn [app]; now rewrite drive_None
      | apply IH; reflexivity].
  - destruct (read_value pr st value) as [st' chunks].
    rewrite after_fetch_chunks; apply IH; reflexivity.
Qed.

(** X1. Whatever the environment answers, [streamAI] keeps the order of
    its callbacks: it calls nothing before the request except an error
    that ends the call, sends at most one request, calls [onChunk] only
    after it, and calls [onDone] or [onError] at most once in all, as the
    last thing it does. *)
Theorem callbacks_in_order :
  forall (systemPrompt userPrompt : jsstring) (replies : list settled),
    protocol (streamAI systemPrompt userPrompt replies) = true.
Proof.
  intros systemPrompt userPrompt replies; unfold streamAI.
  induction replies as [|r rs IH]; [reflexivity|].
  assert (W : forall cfg,
             protocol
               (let (effects, k') :=
                  with_config systemPrompt userPrompt cfg in
                effects ++ drive k' rs) = true).
  { intros cfg; unfold with_config, throw.
    destruct cfg as [cfg|]; [|now rewrite drive_None].
    destruct (JS.own (provider cfg) (apiKeys cfg)) as [key|];
      [|now rewrite drive_None].
    destruct (negb (str_truthy key)); [now rewrite drive_None|].
    destruct (JS.own (provider cfg) providers) as [adapter|];
      [|now rewrite drive_None].
    cbn [app protocol]; now apply drive_after_fetch. }
  destruct r; cbn [drive resume]; try exact IH; apply W.
Qed.

(** X2. A response that is not a success ends the call with one error
    that names the provider, the status, the status text and the text of
    the body: after the request, built for the custom model when there is
    one and always for streaming, [onError] is the only callback, and the
    body is not read as a stream. *)
Theorem http_error_reported :
  forall (systemPrompt userPrompt : jsstring) (config : AIConfig)
         (adapter : ProviderConfig) (apiKey text : jsstring)
         (response : Response) (rest : list settled),
    JS.own (provider config) (apiKeys config) = Some apiKey ->
    apiKey <> [] ->
    JS.own (provider config) providers = Some adapter ->
    ok response = false ->
    streamAI systemPrompt userPrompt
      (Config (Some config) :: Responded response :: Text text :: rest)
    = [Fetch (buildRequestConfig adapter config systemPrompt userPrompt
                (str_or (customModel config) (model config)) apiKey true);
       OnError (provider config ++ REQUEST_FAILED
                ++ JS.ofNat (status response) ++ [32]
                ++ statusText response ++ js " - " ++ text)].
Proof.
  intros systemPrompt userPrompt config adapter apiKey text response rest
    Hkey Hne Hadapter Hok.
  unfold streamAI; cbn [drive resume with_config].
  rewrite Hkey.
  replace (negb (str_truthy apiKey)) with false
    by (destruct apiKey; [contradiction | reflexivity]).
  rewrite Hadapter; cbn [app drive resume].
  rewrite Hok; cbn [negb app drive resume throw].
  now rewrite drive_None.
Qed.

Lemma http_error_reported_witness :
  exists request,
    streamAI (js "S") (js "U")
      [Config (Some openai_config); Responded unauthorized;
       Text (js "bad key"); ReadValue hi_line; ReadDone]
    = [Fetch request;
       OnError (js "openai API请求失败: 401 Unauthorized - bad key")].
Proof.
  eexists.
  rewrite (http_error_reported (js "S") (js "U") openai_config
             OpenAIProvider.adapter (js "k") (js "bad key") unauthorized
             [ReadValue hi_line; ReadDone]).
  - apply f_equal2; [reflexivity|].
    apply f_equal2; [|reflexivity].
    apply f_equal; vm_compute; reflexivity.
  - cbv [providers JS.own openai_config provider apiKeys]; decide_keys;
      reflexivity.
  - vm_compute; discriminate.
  - cbv [providers JS.own openai_config provider]; decide_keys; reflexivity.
  - reflexivity.
Defined.

(** ** The end of the stream *)

Lemma split_from_plain (s cur : jsstring) :
  no_newline s -> JS.split_from cur s = [cur ++ s].
Proof.
  intros H; revert cur; induction H as [|c s Hc _ IH]; intros cur; simpl.
  - now rewrite app_nil_r.
  - apply Z.eqb_neq in Hc; rewrite Hc, IH, <- app_assoc; reflexivity.
Qed.

Lemma complete_lines_terminated (complete fragment : jsstring) :
  no_newline fragment ->
  complete_lines (complete ++ [10] ++ fragment) = JS.split_nl complete.
Proof.
  intros H; unfold complete_lines, JS.split_nl.
  rewrite split_from_app.
  pose proof (split_from_nonempty complete []) as Hne.
  cbn [app JS.split_from]; rewrite Z.eqb_refl.
  rewrite (split_from_plain fragment [] H); cbn [app].
  change (?a :: [fragment]) with ([a] ++ [fragment]).
  rewrite app_assoc, removelast_last.
  symmetry; apply app_removelast_last; exact Hne.
Qed.

(** X3. When the stream ends, what follows the last newline is dropped:
    the lines that a newline ended are handled, the fragment after them
    never is, whatever it holds, and [onDone] is called. *)
Theorem unterminated_line_dropped :
  forall (adapter : ProviderConfig) (values : list (list Z))
         (complete fragment : jsstring),
    text_of (List.concat values) = complete ++ [10] ++ fragment ->
    no_newline fragment ->
    drive (Some (AwaitRead adapter reader_init))
      (map ReadValue values ++ [ReadDone])
    = map OnChunk (flat_map (process_line adapter) (JS.split_nl complete))
      ++ [OnDone].
Proof.
  intros adapter values complete fragment Htext Hfrag.
  now rewrite read_loop_lines, Htext, complete_lines_terminated.
Qed.

Lemma unterminated_line_dropped_witness :
  drive (Some (AwaitRead OpenAIProvider.adapter reader_init))
    (map ReadValue [hi_line; lo_fragment] ++ [ReadDone])
  = map OnChunk (flat_map (process_line OpenAIProvider.adapter)
                   (JS.split_nl hi_text))
    ++ [OnDone]
  /\ flat_map (process_line OpenAIProvider.adapter) (JS.split_nl hi_text)
     = [{| content := JString (js "hi"); reasoning := JNull |}]
  /\ process_line OpenAIProvider.adapter (text_of lo_fragment)
     = [{| content := JString (js "lo"); reasoning := JNull |}].
Proof.
  split; [|split; vm_compute; reflexivity].
  apply (unterminated_line_dropped OpenAIProvider.adapter
           [hi_line; lo_fragment] hi_text (text_of lo_fragment)).
  - vm_compute; reflexivity.
  - vm_compute; repeat constructor; discriminate.
Defined.

(** X4. A read that fails in the middle of a stream keeps what was
    delivered: the deltas of the lines completed so far have been handed
    to [onChunk], then [onError] is called once with the failure, and
    [onDone] is not called. When the completed lines are valid, the
    callbacks are their chunks in order and then the error. *)
Theorem read_failure_reported :
  forall (adapter : ProviderConfig) (values : list (list Z))
         (failure : jsstring) (rest : list settled),
    drive (Some (AwaitRead adapter reader_init))
      (map ReadValue values ++ Rejected failure :: rest)
    = map OnChunk
        (flat_map (process_line adapter)
           (complete_lines (text_of (List.concat values))))
      ++ [OnError failure]
    /\ (forall (chunks : list StreamChunk),
          Forall2 (valid_line adapter)
            (complete_lines (text_of (List.concat values))) chunks ->
          drive (Some (AwaitRead adapter reader_init))
            (map ReadValue values ++ Rejected failure :: rest)
          = map OnChunk chunks ++ [OnError failure]).
Proof.
  intros adapter values failure rest.
  assert (E : drive (Some (AwaitRead adapter reader_init))
                (map ReadValue values ++ Rejected failure :: rest)
              = map OnChunk
                  (flat_map (process_line adapter)
                     (complete_lines (text_of (List.concat values))))
                ++ [OnError failure]).
  { rewrite read_loop_one_value.
    unfold complete_lines, text_of.
    cbn [drive resume]; unfold read_value, reader_init;
      cbn [decoder buffer app].
    destruct (TextDecoder.decode TextDecoder.init (List.concat values)).
    cbn [snd drive resume throw app]; now rewrite drive_None. }
  split; [exact E|].
  intros chunks H; rewrite E.
  now rewrite (valid_lines_delivered _ _ _ H).
Qed.

Lemma read_failure_reported_witness :
  drive (Some (AwaitRead OpenAIProvider.adapter reader_init))
    (map ReadValue [firstn 9 hi_line; skipn 9 hi_line ++ lo_fragment]
     ++ Rejected (js "network error") :: [ReadDone])
  = map OnChunk [hi_delta] ++ [OnError (js "network error")].
Proof.
  refine (proj2
            (read_failure_reported OpenAIProvider.adapter
               [firstn 9 hi_line; skipn 9 hi_line ++ lo_fragment]
               (js "network error") [ReadDone])
            [hi_delta] _).
  replace (complete_lines
             (text_of
                (List.concat
                   [firstn 9 hi_line; skipn 9 hi_line ++ lo_fragment])))
    with [hi_text] by (vm_compute; reflexivity).
  constructor; [|constructor].
  exists hi_payload, hi_data; repeat split; vm_compute; reflexivity.
Defined.

(** ** White space around a line *)

Lemma trimStart_pad_left (pre s : jsstring) :
  all_white pre -> JS.trimStart (pre ++ s) = JS.trimStart s.
Proof.
  intros H; induction H as [|c pre Hc _ IH]; simpl; [reflexivity|].
  now rewrite Hc.
Qed.

Lemma trimStart_all_white (s : jsstring) : all_white s -> JS.trimStart s = [].
Proof.
  intros H; rewrite <- (app_nil_r s); now rewrite trimStart_pad_left.
Qed.

Lemma trimStart_pad_right (s post : jsstring) :
  all_white post ->
  JS.trimStart (s ++ post) =
  match JS.trimStart s with
  | [] => []
  | c :: t => c :: t ++ post
  end.
Proof.
  intros H; induction s as [|c s IH]; simpl.
  - now apply trimStart_all_white.
  - destruct (JS.isWhiteSpace c); [exact IH | reflexivity].
Qed.

Lemma trimEnd_pad (s post : jsstring) :
  all_white post -> JS.trimEnd (s ++ post) = JS.trimEnd s.
Proof.
  intros H; unfold JS.trimEnd.
  rewrite rev_app_distr, trimStart_pad_left; [reflexivity|].
  now apply Forall_rev.
Qed.

Lemma trim_pad (pre s post : jsstring) :
  all_white pre -> all_white post ->
  JS.trim (pre ++ s ++ post) = JS.trim s.
Proof.
  intros Hpre Hpost; unfold JS.trim.
  rewrite trimStart_pad_left by exact Hpre.
  rewrite trimStart_pad_right by exact Hpost.
  destruct (JS.trimStart s) as [|c t]; [reflexivity|].
  now rewrite app_comm_cons, trimEnd_pad.
Qed.

(** X5. White space before and after a line does not count: a line
    yields the same chunks with any indentation and with any trailing
    white space, such as the carriage return of a CRLF line end. *)
Theorem line_padding_ignored :
  forall (adapter : ProviderConfig) (pre line post : jsstring),
    all_white pre ->
    all_white post ->
    process_line adapter (pre ++ line ++ post) = process_line adapter line.
Proof.
  intros adapter pre line post Hpre Hpost.
  unfold process_line; now rewrite trim_pad.
Qed.

Lemma line_padding_ignored_witness :
  process_line OpenAIProvider.adapter padded_line
  = process_line OpenAIProvider.adapter hi_text.
Proof.
  apply (line_padding_ignored OpenAIProvider.adapter (js "  ") hi_text [13]);
    repeat constructor.
Defined.

(** ** What a generation posts *)

Lemma start_generation p action systemPrompt userPrompt :
  streams action = true ->
  let g := List.length (invocations p) in
  let p2 := run p [Message action; Settle g (Prompts systemPrompt userPrompt)] in
  nth_error (invocations p2) g
  = Some {| aborted := false;
            at_stage := InStreamAI (AwaitGetConfig systemPrompt userPrompt) |}
  /\ connected p2 = connected p
  /\ posted p2 = posted p.
Proof.
  intros Ha g p2.
  assert (E : occur p (Message action)
              = {| connected := connected p;
                   controller := Some g;
                   invocations :=
                     abort_controller p
                     ++ [{| aborted := false; at_stage := AwaitPrompts |}];
                   posted := posted p |})
    by (cbn [occur]; now rewrite Ha).
  assert (Hg : nth_error
                 (abort_controller p
                  ++ [{| aborted := false; at_stage := AwaitPrompts |}]) g
               = Some {| aborted := false; at_stage := AwaitPrompts |}).
  { rewrite nth_error_app2 by (rewrite abort_controller_length; apply le_n).
    unfold g; now rewrite abort_controller_length, Nat.sub_diag. }
  assert (E2 : p2 = set_stage g
                      (InStreamAI (AwaitGetConfig systemPrompt userPrompt))
                      (occur p (Message action))).
  { unfold p2, run; cbn [fold_left]; rewrite E.
    unfold occur; cbn [invocations]; rewrite Hg; reflexivity. }
  rewrite E2, E; cbn [set_stage invocations connected posted].
  rewrite nth_error_update, Nat.eqb_refl, Hg; repeat split.
Qed.

(** X6. A streaming message on a connected port, whatever happened on
    the port before, starts a generation that relays the callbacks of its
    [streamAI] call one for one and in order, as long as nothing else
    happens on the port: a [chunk] for each [onChunk], [done] for
    [onDone], [error] for [onError], and nothing for the request. *)
Theorem generation_relays_callbacks :
  forall (p : port) (action systemPrompt userPrompt : jsstring)
         (replies : list settled),
    connected p = true ->
    streams action = true ->
    posted
      (run p
         ([Message action;
           Settle (List.length (invocations p))
             (Prompts systemPrompt userPrompt)]
          ++ to_port (List.length (invocations p)) replies))
    = posted p
      ++ map (pair (List.length (invocations p)))
           (flat_map (posts_of true false)
              (streamAI systemPrompt userPrompt replies)).
Proof.
  intros p action systemPrompt userPrompt replies Hc Ha.
  destruct (start_generation p action systemPrompt userPrompt Ha)
    as [Hi [Hcon Hposted]].
  change (run p (?a ++ ?b)) with (run (run p a) b).
  rewrite (run_stream _ replies _ _ _ Hi eq_refl).
  now rewrite Hcon, Hposted, Hc.
Qed.

Lemma generation_relays_callbacks_witness :
  posted
    (run superseded
       ([Message (js "summarizeSubtitlesStream");
         Settle (List.length (invocations superseded))
           (Prompts (js "S") (js "U"))]
        ++ to_port (List.length (invocations superseded))
             [Config (Some openai_config); Responded unauthorized;
              Text (js "bad key")]))
  = posted superseded
    ++ map (pair (List.length (invocations superseded)))
         (flat_map (posts_of true false)
            (streamAI (js "S") (js "U")
               [Config (Some openai_config); Responded unauthorized;
                Text (js "bad key")])).
Proof.
  apply generation_relays_callbacks; vm_compute; reflexivity.
Defined.

Lemma process_line_has_delta adapter line chunkData :
  In chunkData (process_line adapter line) -> has_delta chunkData = true.
Proof.
  unfold process_line, try_emit.
  destruct (negb (str_truthy (JS.trim line))); [intros []|].
  destruct (JS.startsWith (JS.trim line) DATA_PREFIX); [|intros []].
  destruct (JS.eqb (JS.slice 6 (JS.trim line)) DONE_SENTINEL); [intros []|].
  destruct (JSON.parse (JS.slice 6 (JS.trim line))) as [data|]; [|intros []].
  destruct (has_delta (parseStreamChunk adapter data)) eqn:E; [|intros []].
  now intros [<- | []].
Qed.

Lemma resume_posts_carry_delta c a k r :
  forallb carries_delta (flat_map (posts_of c a) (fst (resume k r))) = true.
Proof.
  assert (W : forall sp up cfg,
             forallb carries_delta
               (flat_map (posts_of c a) (fst (with_config sp up cfg)))
             = true).
  { intros sp up cfg; unfold with_config, throw.
    destruct cfg as [cfg|]; [|now destruct c, a].
    destruct (JS.own (provider cfg) (apiKeys cfg)) as [key|];
      [|now destruct c, a].
    destruct (negb (str_truthy key)); [now destruct c, a|].
    destruct (JS.own (provider cfg) providers); now destruct c, a. }
  destruct k as [sp up|cfg pr|cfg resp|pr st], r; cbn [resume fst throw];
    try apply W; try (now destruct c, a).
  - destruct (negb (ok response)); [reflexivity|].
    destruct (negb (has_body response)); now destruct c, a.
  - unfold read_value.
    destruct (TextDecoder.decode (decoder st) value) as [d text];
      cbn [fst].
    set (lines := removelast (JS.split_nl (buffer st ++ text))).
    induction lines as [|l ls IH]; [reflexivity|].
    cbn [flat_map]; rewrite map_app, flat_map_app, forallb_app, IH.
    rewrite andb_true_r.
    pose proof (process_line_has_delta pr l) as H.
    induction (process_line pr l) as [|x xs IHx]; [reflexivity|].
    cbn [map flat_map app forallb].
    rewrite forallb_app, IHx by (intros y Hy; apply H; now right).
    rewrite andb_true_r.
    specialize (H x (or_introl eq_refl)).
    unfold posts_of; destruct c; [|reflexivity].
    cbn [forallb carries_delta]; unfold has_delta in H; now rewrite H.
Qed.

Lemma occur_carries_delta p o :
  forallb (fun e => carries_delta (snd e)) (posted p) = true ->
  forallb (fun e => carries_delta (snd e)) (posted (occur p o)) = true.
Proof.
  intros H; destruct o as [a| |g r]; cbn [occur posted]; try exact H.
  destruct (nth_error (invocations p) g) as [i|]; [|exact H].
  rewrite settle_posted, forallb_app, H; cbn [andb].
  assert (E : forall ms, forallb (fun e => carries_delta (snd e))
                           (map (pair g) ms) = forallb carries_delta ms).
  { induction ms as [|m ms IH]; [reflexivity|]; cbn; now rewrite IH. }
  rewrite E; unfold settle_posts.
  destruct (at_stage i) as [|k|], r as [sp up|e|r]; try reflexivity.
  - unfold posts_of; now destruct (connected p), (is_aborted p g).
  - apply resume_posts_carry_delta.
Qed.

(** X7. The port never posts an empty chunk: in every [chunk] message
    posted in any run, the content or the reasoning is truthy. *)
Theorem no_empty_chunk_posted :
  forall (os : list occurrence),
    forallb (fun e => carries_delta (snd e)) (posted (run port_open os))
    = true.
Proof.
  intros os; unfold run.
  assert (H : forallb (fun e => carries_delta (snd e)) (posted port_open)
              = true) by reflexivity.
  revert H; generalize port_open.
  induction os as [|o os IH]; intros p H; [exact H|].
  cbn [fold_left]; apply IH, occur_carries_delta, H.
Qed.

(** ** A message that does not stream *)

Lemma occur_posted_bound p o : posted_bound p -> posted_bound (occur p o).
Proof.
  unfold posted_bound; intros H; destruct o as [a| |g r]; cbn [occur].
  - cbn [posted invocations]; rewrite length_app, abort_controller_length.
    eapply Forall_impl; [|exact H]; cbn; intros; lia.
  - cbn [posted invocations]; now rewrite abort_controller_length.
  - destruct (nth_error (invocations p) g) as [i|] eqn:Ei; [|exact H].
    assert (Hlen : List.length (invocations (settle g i r p))
                   = List.length (invocations p)).
    { unfold settle.
      destruct (at_stage i) as [|k|], r as [sp up|e|r]; try reflexivity.
      - cbn [set_stage invocations]; now rewrite update_length.
      - cbn [set_stage invocations]; rewrite update_length.
        change (report_error g e p) with (callback g p (OnError e)).
        now rewrite callback_invocations.
      - destruct (resume k r) as [es k']; cbn [set_stage invocations].
        now rewrite update_length, callbacks_invocations. }
    rewrite settle_posted, Hlen; apply Forall_app; split; [exact H|].
    apply Forall_forall; intros e He; apply in_map_iff in He.
    destruct He as [m [<- _]]; cbn.
    apply nth_error_Some; congruence.
Qed.

Lemma run_posted_bound os p : posted_bound p -> posted_bound (run p os).
Proof.
  revert p; induction os as [|o os IH]; intros p H; [exact H|].
  apply IH, occur_posted_bound, H.
Qed.

Lemma run_keeps_abort os p g :
  is_aborted p g = true -> is_aborted (run p os) g = true.
Proof.
  revert p; induction os as [|o os IH]; intros p H; [exact H|].
  apply IH, occur_keeps_abort, H.
Qed.

(** X8. A message whose action is none of the three that stream starts
    nothing and is never answered, not even with an error; it cancels
    the generation that was running all the same. *)
Theorem other_action_is_silent :
  forall (before later : list occurrence) (action : jsstring),
    streams action = false ->
    let p := run port_open before in
    events_of (List.length (invocations p))
      (run (occur p (Message action)) later) = []
    /\ (forall g, controller p = Some g ->
                  is_aborted (run (occur p (Message action)) later) g = true).
Proof.
  intros before later action Ha p; split.
  - rewrite run_returned.
    + assert (Hb : posted_bound p)
        by (apply run_posted_bound; constructor).
      unfold events_of; cbn [occur posted].
      unfold posted_bound in Hb.
      induction (posted p) as [|e es IH]; [reflexivity|].
      inversion Hb as [|? ? He Hes]; subst; cbn [filter].
      replace (Nat.eqb (fst e) (List.length (invocations p))) with false
        by (symmetry; apply Nat.eqb_neq; lia).
      now apply IH.
    + unfold stage_of; cbn [occur invocations]; rewrite Ha.
      rewrite nth_error_app2 by (rewrite abort_controller_length; apply le_n).
      now rewrite abort_controller_length, Nat.sub_diag.
  - intros g Hg; apply run_keeps_abort.
    apply (abort_triggers p g action); [|exact Hg].
    apply run_controller_bound; exact I.
Qed.

Lemma other_action_is_silent_witness :
  events_of 1 (run (occur (run port_open streaming) (Message (js "ping")))
                 [Settle 1 (Prompts (js "S") (js "U"))]) = []
  /\ is_aborted (run (occur (run port_open streaming) (Message (js "ping")))
                   [Settle 1 (Prompts (js "S") (js "U"))]) 0 = true.
Proof.
  destruct (other_action_is_silent streaming
              [Settle 1 (Prompts (js "S") (js "U"))] (js "ping"))
    as [H1 H2]; [vm_compute; reflexivity|].
  split; [exact H1 | apply H2; vm_compute; reflexivity].
Defined.

(** ** What a request depends on *)

(** X9. Of the configuration a request reads the base URL and nothing
    else: two configurations with the same base URL, an empty one
    counting as the default of the adapter, give the same request,
    whatever their keys, models and per-provider base URLs. *)
Theorem request_reads_base_url_only :
  forall (d : dialect) (config config' : AIConfig)
         (systemPrompt userPrompt model apiKey : jsstring) (stream : bool),
    effective_base d config = effective_base d config' ->
    buildRequestConfig (adapter_of d) config systemPrompt userPrompt model
      apiKey stream
    = buildRequestConfig (adapter_of d) config' systemPrompt userPrompt model
        apiKey stream.
Proof.
  intros d config config' systemPrompt userPrompt model apiKey stream.
  unfold effective_base.
  destruct d; cbn [adapter_of]; intros H.
  - unfold OpenAIProvider.adapter in *; cbn [buildRequestConfig getDefaultBaseUrl] in *.
    unfold OpenAIProvider.buildRequestConfig; now rewrite H.
  - unfold GeminiProvider.adapter in *; cbn [buildRequestConfig getDefaultBaseUrl] in *.
    unfold GeminiProvider.buildRequestConfig; now rewrite H.
  - unfold ClaudeProvider.adapter in *; cbn [buildRequestConfig getDefaultBaseUrl] in *.
    unfold ClaudeProvider.buildRequestConfig; now rewrite H.
Qed.

Lemma request_reads_base_url_only_witness :
  buildRequestConfig (adapter_of Claude) with_base_urls (js "S") (js "U")
    (js "m") (js "k") true
  = buildRequestConfig (adapter_of Claude) without_base_urls (js "S") (js "U")
      (js "m") (js "k") true.
Proof.
  apply request_reads_base_url_only; reflexivity.
Defined.

(** X10. The key goes where the dialect wants it and nowhere else. The
    body of a request never depends on the key. OpenAI and Claude keep it
    out of the URL and send it in a header, [Authorization: Bearer] and
    [x-api-key]; Gemini keeps it out of the headers and sends it as the
    [key] parameter that ends the URL, followed by [alt=sse] when
    streaming. *)
Theorem key_placement :
  forall (config : AIConfig) (systemPrompt userPrompt model : jsstring)
         (stream : bool),
    (forall d apiKey apiKey',
        body (buildRequestConfig (adapter_of d) config systemPrompt
                userPrompt model apiKey stream)
        = body (buildRequestConfig (adapter_of d) config systemPrompt
                  userPrompt model apiKey' stream))
    /\ (forall d apiKey apiKey',
          d <> Gemini ->
          url (buildRequestConfig (adapter_of d) config systemPrompt
                 userPrompt model apiKey stream)
          = url (buildRequestConfig (adapter_of d) config systemPrompt
                   userPrompt model apiKey' stream))
    /\ (forall apiKey,
          JS.own (js "Authorization")
            (headers (OpenAIProvider.buildRequestConfig config systemPrompt
                        userPrompt model apiKey stream))
          = Some (js "Bearer " ++ apiKey)
          /\ JS.own (js "x-api-key")
               (headers (ClaudeProvider.buildRequestConfig config
                           systemPrompt userPrompt model apiKey stream))
             = Some apiKey)
    /\ (forall apiKey apiKey',
          headers (GeminiProvider.buildRequestConfig config systemPrompt
                     userPrompt model apiKey stream)
          = headers (GeminiProvider.buildRequestConfig config systemPrompt
                       userPrompt model apiKey' stream))
    /\ (forall apiKey,
          exists path,
            url (GeminiProvider.buildRequestConfig config systemPrompt
                   userPrompt model apiKey stream)
            = path ++ js "?key=" ++ apiKey
              ++ (if stream then js "&alt=sse" else [])).
Proof.
  intros config systemPrompt userPrompt model stream.
  split; [|split; [|split; [|split]]].
  - intros [] apiKey apiKey'; reflexivity.
  - intros [] apiKey apiKey' Hd; try reflexivity; contradiction.
  - intros apiKey; split.
    + cbv [OpenAIProvider.buildRequestConfig headers JS.own]; decide_keys.
      reflexivity.
    + cbv [ClaudeProvider.buildRequestConfig headers JS.own]; decide_keys.
      reflexivity.
  - reflexivity.
  - intros apiKey.
    assert (E : js "?key=" = js "?" ++ js "key=") by (vm_compute; reflexivity).
    unfold GeminiProvider.buildRequestConfig; cbn [url]; rewrite E.
    destruct stream; eexists; rewrite ?app_nil_r;
      repeat rewrite app_assoc; reflexivity.
Qed.

Lemma key_placement_witness :
  url (buildRequestConfig (adapter_of Claude) with_base_urls (js "S")
         (js "U") (js "m") (js "k1") true)
  = url (buildRequestConfig (adapter_of Claude) with_base_urls (js "S")
           (js "U") (js "m") (js "k2") true).
Proof.
  refine (proj1 (proj2 (key_placement with_base_urls (js "S") (js "U")
                          (js "m") true))
            Claude (js "k1") (js "k2") _).
  discriminate.
Defined.

(** ** What an adapter reads *)

Lemma eqb_refl (s : jsstring) : JS.eqb s s = true.
Proof. now apply eqb_eq. Qed.

Lemma own_single {A} (k : jsstring) (v : A) : JS.own k [(k, v)] = Some v.
Proof. cbn [JS.own]; now rewrite eqb_refl. Qed.

Lemma or_null_normalised (v : option json) :
  null_or_truthy (or_null v) = true.
Proof.
  unfold or_null, or_else.
  destruct v as [x|]; cbn [truthy_opt]; [|reflexivity].
  destruct (truthy x) eqn:E; [|reflexivity].
  destruct x; try reflexivity; exact E.
Qed.

(** X11. The fields of a chunk are normalised: whatever the payload, the
    content and the reasoning an adapter returns are [null] or truthy,
    never the empty string, zero or [false]. Only the OpenAI dialect ever
    returns a reasoning. A Claude event whose [type] is not
    [content_block_delta] gives a chunk with both fields [null], whatever
    else it holds. *)
Theorem chunk_fields_normalised :
  forall (d : dialect) (data : json),
    null_or_truthy (content (parseStreamChunk (adapter_of d) data)) = true
    /\ null_or_truthy (reasoning (parseStreamChunk (adapter_of d) data))
       = true
    /\ (d <> OpenAI ->
        reasoning (parseStreamChunk (adapter_of d) data) = JNull)
    /\ (get data (field "type")
        <> Some (JString (js "content_block_delta")) ->
        parseStreamChunk (adapter_of Claude) data
        = {| content := JNull; reasoning := JNull |}).
Proof.
  intros d data.
  assert (Hclaude :
            forall x,
              null_or_truthy (content (ClaudeProvider.parseStreamChunk x))
              = true
              /\ reasoning (ClaudeProvider.parseStreamChunk x) = JNull).
  { intros x; unfold ClaudeProvider.parseStreamChunk.
    destruct (ClaudeProvider.is_content_block_delta x); cbn [content reasoning];
      split; try reflexivity; apply or_null_normalised. }
  split; [|split; [|split]].
  - destruct d; cbn [adapter_of]; try apply or_null_normalised.
    apply Hclaude.
  - destruct d; cbn [adapter_of]; try apply or_null_normalised;
      try reflexivity.
    cbn [ClaudeProvider.adapter parseStreamChunk].
    now rewrite (proj2 (Hclaude data)).
  - destruct d; intros Hd; [contradiction | reflexivity|].
    apply Hclaude.
  - intros Htype; cbn [adapter_of ClaudeProvider.adapter parseStreamChunk].
    unfold ClaudeProvider.parseStreamChunk.
    replace (ClaudeProvider.is_content_block_delta data) with false;
      [reflexivity|].
    unfold ClaudeProvider.is_content_block_delta; cbn [chain].
    destruct data; try reflexivity;
      match goal with
      | |- false = match ?g with _ => _ end =>
          destruct g as [[| | |t| |]|] eqn:E; try reflexivity
      end;
      destruct (JS.eqb t (js "content_block_delta")) eqn:Et;
      try reflexivity;
      apply eqb_eq in Et; subst t; contradiction.
Qed.

Lemma chunk_fields_normalised_witness :
  parseStreamChunk (adapter_of Claude) message_start
  = {| content := JNull; reasoning := JNull |}
  /\ reasoning (parseStreamChunk (adapter_of Gemini) message_start) = JNull.
Proof.
  split.
  - apply (proj2 (proj2 (proj2
             (chunk_fields_normalised Claude message_start)))).
    vm_compute; discriminate.
  - apply (proj1 (proj2 (proj2
             (chunk_fields_normalised Gemini message_start)))).
    discriminate.
Defined.

Lemma openai_first (choices : list json) (ks : list key) :
  chain (Some (openai_payload choices)) (field "choices" :: Index0 :: ks)
  = chain (nth_error choices 0) ks.
Proof.
  unfold openai_payload, field, prop; cbn [chain get].
  now rewrite own_single.
Qed.

Lemma gemini_first (parts : list json) (ks : list key) :
  chain (Some (gemini_payload parts))
    (field "candidates" :: Index0 :: field "content" :: field "parts"
     :: Index0 :: ks)
  = chain (nth_error parts 0) ks.
Proof.
  unfold gemini_payload, field, prop; cbn [chain get].
  rewrite own_single; cbn [nth_error chain get].
  rewrite own_single; cbn [chain get].
  now rewrite own_single.
Qed.

Lemma gemini_first_candidate (candidates : list json) (ks : list key) :
  chain (Some (gemini_candidates candidates))
    (field "candidates" :: Index0 :: ks)
  = chain (nth_error candidates 0) ks.
Proof.
  unfold gemini_candidates, field, prop; cbn [chain get].
  now rewrite own_single.
Qed.

Lemma candidate_first_part (parts : list json) (ks : list key) :
  chain (Some (candidate_of parts))
    (field "content" :: field "parts" :: Index0 :: ks)
  = chain (nth_error parts 0) ks.
Proof.
  unfold candidate_of, field, prop; cbn [chain get].
  rewrite own_single; cbn [chain get].
  now rewrite own_single.
Qed.

(** X12. Of a payload only the first choice, the first candidate and the
    first part are read: what follows them changes nothing, and a text in
    a second part or in a second candidate is not delivered. A first
    choice, or the first part of the first candidate, that carries a text
    that is not empty delivers that text. *)
Theorem first_element_only :
  (forall first others,
      parseStreamChunk OpenAIProvider.adapter (openai_payload (first :: others))
      = parseStreamChunk OpenAIProvider.adapter (openai_payload [first]))
  /\ (forall first others,
        parseStreamChunk GeminiProvider.adapter
          (gemini_payload (first :: others))
        = parseStreamChunk GeminiProvider.adapter (gemini_payload [first]))
  /\ (forall text others,
        text <> [] ->
        parseStreamChunk OpenAIProvider.adapter
          (openai_payload (content_choice text :: others))
        = {| content := JString text; reasoning := JNull |})
  /\ (forall text others,
        text <> [] ->
        parseStreamChunk GeminiProvider.adapter
          (gemini_payload (text_part text :: others))
        = {| content := JString text; reasoning := JNull |})
  /\ (forall first others,
        parseStreamChunk GeminiProvider.adapter
          (gemini_candidates (first :: others))
        = parseStreamChunk GeminiProvider.adapter (gemini_candidates [first]))
  /\ (forall first parts candidates,
        parseStreamChunk GeminiProvider.adapter
          (gemini_candidates (candidate_of (first :: parts) :: candidates))
        = parseStreamChunk GeminiProvider.adapter
            (gemini_candidates [candidate_of [first]]))
  /\ (forall text parts candidates,
        text <> [] ->
        parseStreamChunk GeminiProvider.adapter
          (gemini_candidates
             (candidate_of (text_part text :: parts) :: candidates))
        = {| content := JString text; reasoning := JNull |}).
Proof.
  assert (Ho : forall choices,
             parseStreamChunk OpenAIProvider.adapter (openai_payload choices)
             = {| content :=
                    or_null (chain (nth_error choices 0)
                               [field "delta"; field "content"]);
                  reasoning :=
                    or_null
                      (or_else
                         (chain (nth_error choices 0)
                            [field "delta"; field "reasoning_content"])
                         (chain (nth_error choices 0)
                            [field "delta"; field "reasoning"])) |}).
  { intros choices.
    cbn [parseStreamChunk OpenAIProvider.adapter].
    unfold OpenAIProvider.parseStreamChunk, OpenAIProvider.content_delta,
      OpenAIProvider.reasoning_delta, OpenAIProvider.delta.
    cbn [app]; now rewrite !openai_first. }
  assert (Hg : forall parts,
             parseStreamChunk GeminiProvider.adapter (gemini_payload parts)
             = {| content := or_null (chain (nth_error parts 0) [field "text"]);
                  reasoning := JNull |}).
  { intros parts.
    cbn [parseStreamChunk GeminiProvider.adapter].
    unfold GeminiProvider.parseStreamChunk, GeminiProvider.content_delta.
    now rewrite gemini_first. }
  assert (Hc : forall candidates,
             parseStreamChunk GeminiProvider.adapter
               (gemini_candidates candidates)
             = {| content :=
                    or_null
                      (chain (nth_error candidates 0)
                         [field "content"; field "parts"; Index0;
                          field "text"]);
                  reasoning := JNull |}).
  { intros candidates.
    cbn [parseStreamChunk GeminiProvider.adapter].
    unfold GeminiProvider.parseStreamChunk, GeminiProvider.content_delta.
    now rewrite gemini_first_candidate. }
  split; [|split; [|split; [|split; [|split; [|split]]]]].
  - intros first others; now rewrite !Ho.
  - intros first others; now rewrite !Hg.
  - intros text others Hne; rewrite Ho.
    unfold content_choice, field, prop; cbn [nth_error chain get].
    rewrite own_single; cbn [chain get JS.own]; decide_keys.
    destruct text; [contradiction | reflexivity].
  - intros text others Hne; rewrite Hg.
    unfold text_part, field, prop; cbn [nth_error chain get].
    rewrite own_single.
    destruct text; [contradiction | reflexivity].
  - intros first others; now rewrite !Hc.
  - intros first parts candidates; rewrite !Hc; cbn [nth_error].
    now rewrite !candidate_first_part.
  - intros text parts candidates Hne; rewrite Hc; cbn [nth_error].
    rewrite candidate_first_part.
    unfold text_part, field, prop; cbn [nth_error chain get].
    rewrite own_single.
    destruct text; [contradiction | reflexivity].
Qed.

Lemma first_element_only_witness :
  parseStreamChunk GeminiProvider.adapter
    (gemini_candidates
       [candidate_of [text_part (js "Hel"); text_part (js "lo")];
        candidate_of [text_part (js "x")]])
  = {| content := JString (js "Hel"); reasoning := JNull |}.
Proof.
  apply (proj2 (proj2 (proj2 (proj2 (proj2 (proj2 first_element_only)))))).
  vm_compute; discriminate.
Defined.

(** ** Responses that are not streamed *)

Lemma member_get (v x : json) (k : key) :
  get v k = Some x -> member (Some v) k = Returns (Some x).
Proof.
  intros H; destruct v; cbn [member]; try (now rewrite H).
  destruct k; discriminate H.
Qed.

Lemma chain_get (v x : json) (k : key) (ks : list key) :
  get v k = Some x -> chain (Some v) (k :: ks) = chain (Some x) ks.
Proof.
  intros H; destruct v; cbn [chain]; try (now rewrite H).
  destruct k; discriminate H.
Qed.

Lemma or_empty_spec (v : option json) :
  or_empty v = JString [] \/ truthy (or_empty v) = true.
Proof.
  unfold or_empty, or_else.
  destruct v as [x|]; cbn [truthy_opt]; [|now left].
  destruct (truthy x) eqn:E; [now right | now left].
Qed.

(** X13. [extractContent] throws where the list of the response is
    missing and answers the empty string where the list is empty: a
    response without [choices], [candidates] or [content] makes it throw a
    [TypeError], as does a Gemini candidate whose content has no parts; a
    response whose list is empty gives the empty string; and what it
    returns is the empty string or a truthy value. *)
Theorem extractContent_missing_list :
  (forall (d : dialect) (response : json),
      nullish (get response (list_field d)) = true ->
      extractContent d response = Throws TypeError)
  /\ (forall (d : dialect) (response : json),
        get response (list_field d) = Some (JArray []) ->
        extractContent d response = Returns (JString []))
  /\ (forall (response candidate content : json) (others : list json),
        get response (field "candidates")
        = Some (JArray (candidate :: others)) ->
        get candidate (field "content") = Some content ->
        content <> JNull ->
        nullish (get content (field "parts")) = true ->
        Gemini_extractContent response = Throws TypeError)
  /\ (forall (d : dialect) (response value : json),
        extractContent d response = Returns value ->
        value = JString [] \/ truthy value = true).
Proof.
  split; [|split; [|split]].
  - intros d response H.
    destruct d; cbn [extractContent list_field] in *;
      unfold OpenAI_extractContent, Gemini_extractContent,
        Claude_extractContent, member;
      destruct response; try reflexivity;
      match goal with
      | H : nullish ?g = true |- _ =>
          destruct g as [[| | | | |]|]; try discriminate H; reflexivity
      end.
  - intros d response H.
    assert (Hn : response <> JNull)
      by (intros ->; destruct d; discriminate H).
    destruct d; cbn [extractContent list_field] in *;
      unfold OpenAI_extractContent, Gemini_extractContent,
        Claude_extractContent, member;
      destruct response; try contradiction; rewrite H; reflexivity.
  - intros response candidate content others Hc Hcontent Hnn Hparts.
    unfold Gemini_extractContent.
    rewrite (member_get _ _ _ Hc).
    cbn [member get nth_error].
    rewrite (chain_get _ _ _ [] Hcontent); cbn [chain].
    replace (nullish (Some candidate)) with false
      by (destruct candidate; try reflexivity;
          destruct (field "content"); discriminate Hcontent).
    replace (nullish (Some content)) with false
      by (destruct content; try reflexivity; contradiction).
    destruct content; try contradiction; cbn [chain];
      destruct (get _ (field "parts")) as [[| | | | |]|];
      try discriminate Hparts; reflexivity.
  - intros d response value.
    destruct d; cbn [extractContent];
      unfold OpenAI_extractContent, Gemini_extractContent,
        Claude_extractContent;
      repeat match goal with
             | |- context [match member ?v ?k with _ => _ end] =>
                 destruct (member v k)
             | |- context [if ?b then _ else _] => destruct b
             end;
      intros H; inversion H; apply or_empty_spec.
Qed.

Lemma extractContent_missing_list_witness :
  extractContent OpenAI no_list = Throws TypeError
  /\ extractContent Claude (JSON.JObject [prop "content" (JArray [])])
     = Returns (JString [])
  /\ Gemini_extractContent content_without_parts = Throws TypeError.
Proof.
  split; [|split].
  - apply (proj1 extractContent_missing_list OpenAI no_list).
    vm_compute; reflexivity.
  - apply (proj1 (proj2 extractContent_missing_list) Claude).
    vm_compute; reflexivity.
  - apply (proj1 (proj2 (proj2 extractContent_missing_list))
             content_without_parts
             (JObject [prop "content" (JObject [])]) (JObject []) []);
      vm_compute; try reflexivity; discriminate.
Defined.

(** ** The steps of [formatSubtitlesForAI] *)

Lemma format_texts_steps texts :
  format_texts texts = truncate (formattedText texts).
Proof. reflexivity. Qed.

Lemma join_sp_cons (a : jsstring) (l : list jsstring) :
  l <> [] -> JS.join_sp (a :: l) = a ++ 32 :: JS.join_sp l.
Proof. destruct l; [contradiction | reflexivity]. Qed.

Lemma join_sp_merged (l : list jsstring) (a b : jsstring)
    (rest : list jsstring) :
  JS.join_sp (l ++ (a ++ 32 :: b) :: rest)
  = JS.join_sp (l ++ a :: b :: rest).
Proof.
  induction l as [|x l IH].
  - cbn [app]; rewrite (join_sp_cons a) by discriminate.
    destruct rest as [|r rest]; [reflexivity|].
    rewrite !join_sp_cons by discriminate.
    rewrite <- app_assoc; reflexivity.
  - cbn [app]; rewrite !join_sp_cons by (now destruct l).
    now rewrite IH.
Qed.

Lemma join_sp_merge_short (acc : list jsstring) (current : jsstring)
    (rest : list jsstring) :
  JS.join_sp (merge_short acc current ++ rest)
  = JS.join_sp (acc ++ current :: rest).
Proof.
  unfold merge_short.
  destruct acc as [|a acc]; [reflexivity|].
  destruct ((JS.length current <? 20)
            && (JS.length (last (a :: acc) []) <? 50)).
  - assert (E : a :: acc
                = removelast (a :: acc) ++ [last (a :: acc) []])
      by (apply app_removelast_last; discriminate).
    transitivity
      (JS.join_sp
         ((removelast (a :: acc) ++ [last (a :: acc) []])
          ++ current :: rest));
      [|now rewrite <- E].
    rewrite <- !app_assoc.
    apply (join_sp_merged (removelast (a :: acc)) (last (a :: acc) [])
             current rest).
  - now rewrite <- app_assoc.
Qed.

Lemma join_sp_reduce (texts acc rest : list jsstring) :
  JS.join_sp (fold_left merge_short texts acc ++ rest)
  = JS.join_sp (acc ++ texts ++ rest).
Proof.
  revert acc; induction texts as [|t ts IH]; intros acc; [reflexivity|].
  cbn [fold_left app]; rewrite IH.
  change (ts ++ rest) with ([] ++ ts ++ rest).
  now rewrite join_sp_merge_short.
Qed.

(** X14. Merging the short texts changes nothing in the end: the texts
    joined after the [reduce] are the texts joined without it, so the
    formatted text is that of the texts kept, joined by spaces, with its
    white space collapsed, trimmed and cut. *)
Theorem merging_changes_nothing :
  forall (texts : list jsstring),
    JS.join_sp (fold_left merge_short texts []) = JS.join_sp texts
    /\ format_texts texts
       = truncate
           (JS.trim (JS.collapseWhiteSpace (JS.join_sp (kept_texts texts)))).
Proof.
  intros texts.
  assert (H : forall l, JS.join_sp (fold_left merge_short l [])
                        = JS.join_sp l).
  { intros l; pose proof (join_sp_reduce l [] []) as E.
    now rewrite !app_nil_r in E. }
  split; [apply H|].
  rewrite format_texts_steps; unfold formattedText; now rewrite H.
Qed.

(** ** Repeated texts *)

Lemma drop_repeats_no_repeat (previous : option jsstring)
    (array : list jsstring) :
  no_repeat_from previous (drop_repeats previous array) = true.
Proof.
  revert previous; induction array as [|text rest IH]; intros previous;
    [reflexivity|].
  cbn [drop_repeats].
  destruct previous as [before|].
  - destruct (JS.eqb text before) eqn:E.
    + apply eqb_eq in E; subst before; apply IH.
    + cbn [no_repeat_from]; now rewrite E, IH.
  - cbn [no_repeat_from]; now rewrite IH.
Qed.

Lemma drop_repeats_fixed (previous : option jsstring)
    (array : list jsstring) :
  no_repeat_from previous array = true ->
  drop_repeats previous array = array.
Proof.
  revert previous; induction array as [|text rest IH]; intros previous H;
    [reflexivity|].
  cbn [no_repeat_from] in H; apply andb_true_iff in H; destruct H as [H1 H2].
  cbn [drop_repeats].
  destruct previous as [before|].
  - apply negb_true_iff in H1; rewrite H1; f_equal; now apply IH.
  - f_equal; now apply IH.
Qed.

(** X15. The second [filter] removes every repeat: in what it keeps no
    text equals the text before it, and an array without such repeats is
    kept as it is. *)
Theorem adjacent_repeats_removed :
  forall (array : list jsstring),
    no_repeat (drop_repeats None array) = true
    /\ (no_repeat array = true -> drop_repeats None array = array).
Proof.
  intros array; split.
  - apply drop_repeats_no_repeat.
  - apply drop_repeats_fixed.
Qed.

Lemma adjacent_repeats_removed_witness :
  drop_repeats None [js "a"; js "b"; js "a"] = [js "a"; js "b"; js "a"]
  /\ drop_repeats None [js "a"; js "a"; js "b"] = [js "a"; js "b"].
Proof.
  split; [|vm_compute; reflexivity].
  apply (proj2 (adjacent_repeats_removed [js "a"; js "b"; js "a"])).
  vm_compute; reflexivity.
Defined.

(** ** White space in the formatted text *)

Lemma ss_collapse (b : bool) (s : jsstring) :
  single_spaced_from b (JS.collapse_from b s) = true.
Proof.
  revert b; induction s as [|c s IH]; intros b; [reflexivity|].
  cbn [JS.collapse_from].
  destruct (JS.isWhiteSpace c) eqn:E.
  - destruct b; [apply IH|].
    cbn [single_spaced_from]; now rewrite IH.
  - cbn [single_spaced_from]; now rewrite E, IH.
Qed.

Lemma ss_weaken (b : bool) (s : jsstring) :
  single_spaced_from b s = true -> single_spaced_from false s = true.
Proof.
  destruct s as [|c s]; [reflexivity|]; cbn [single_spaced_from].
  destruct (JS.isWhiteSpace c); [|auto].
  rewrite !andb_true_iff; intros [[H1 H2] H3]; now rewrite H1, H3.
Qed.

Lemma ss_prefix (x y : jsstring) (b : bool) :
  single_spaced_from b (x ++ y) = true -> single_spaced_from b x = true.
Proof.
  revert b; induction x as [|c x IH]; intros b; [reflexivity|].
  cbn [app single_spaced_from].
  destruct (JS.isWhiteSpace c); [|apply IH].
  rewrite !andb_true_iff; intros [H1 H3]; split; [exact H1|].
  now apply IH.
Qed.

Lemma ss_suffix (x y : jsstring) (b : bool) :
  single_spaced_from b (x ++ y) = true -> single_spaced_from false y = true.
Proof.
  revert b; induction x as [|c x IH]; intros b; [apply ss_weaken|].
  cbn [app single_spaced_from].
  destruct (JS.isWhiteSpace c); [|apply IH].
  rewrite !andb_true_iff; intros [_ H3]; now apply IH in H3.
Qed.

Lemma trimEnd_prefix (s : jsstring) : exists ws, s = JS.trimEnd s ++ ws.
Proof.
  unfold JS.trimEnd.
  destruct (trimStart_suffix (rev s)) as [w Hw].
  exists (rev w).
  rewrite <- rev_app_distr, <- Hw; now rewrite rev_involutive.
Qed.

Lemma ss_trim (s : jsstring) (b : bool) :
  single_spaced_from b s = true -> single_spaced (JS.trim s) = true.
Proof.
  intros H; unfold JS.trim, single_spaced.
  destruct (trimStart_suffix s) as [w1 H1].
  destruct (trimEnd_prefix (JS.trimStart s)) as [w2 H2].
  rewrite H1 in H; apply ss_suffix in H.
  rewrite H2 in H; now apply ss_prefix in H.
Qed.

Lemma ss_truncate (s : jsstring) :
  single_spaced s = true -> single_spaced (truncate s) = true.
Proof.
  intros H; unfold truncate.
  destruct (JS.length s <=? 8000); [exact H|].
  apply (ss_trim _ false); unfold JS.substring0.
  rewrite <- (firstn_skipn (Z.to_nat (cutPoint s)) s) in H.
  now apply ss_prefix in H.
Qed.

Lemma format_texts_single_spaced texts :
  single_spaced (format_texts texts) = true.
Proof.
  rewrite format_texts_steps; apply ss_truncate.
  unfold formattedText; apply (ss_trim _ false), ss_collapse.
Qed.

(** X16. In the text [formatSubtitlesForAI] returns the only white space
    is the single space: every tab, newline or other white space of the
    subtitles has become a space, and no space follows another. *)
Theorem formatted_text_single_spaced :
  forall (subtitles : option json) (text : jsstring),
    formatSubtitlesForAI subtitles = Returns text ->
    single_spaced text = true.
Proof.
  intros subtitles text; unfold formatSubtitlesForAI.
  destruct subtitles as [[| | | |[|first rest]|]|]; try discriminate.
  destruct (map_texts (first :: rest)) as [texts|e]; [|discriminate].
  intros H; injection H as <-; apply format_texts_single_spaced.
Qed.

(** ** The cut of a long text *)

Lemma lastIndexOf_from_spec (c : Z) (s : jsstring) (i found : Z) :
  found < i ->
  (JS.lastIndexOf_from i found c s = found
   /\ forall j, nth_error s j <> Some c)
  \/ (i <= JS.lastIndexOf_from i found c s
      /\ nth_error s (Z.to_nat (JS.lastIndexOf_from i found c s - i))
         = Some c
      /\ forall j, nth_error s j = Some c ->
                   i + Z.of_nat j <= JS.lastIndexOf_from i found c s).
Proof.
  revert i found; induction s as [|d s IH]; intros i found Hlt.
  - left; split; [reflexivity|]; intros [|j]; discriminate.
  - cbn [JS.lastIndexOf_from].
    destruct (Z.eqb_spec d c) as [->|Hd].
    + destruct (IH (i + 1) i ltac:(lia)) as [[E N]|[H1 [H2 H3]]].
      * right; rewrite E; split; [lia|]; split.
        -- now replace (i - i) with 0 by lia.
        -- intros [|j] Hj; [lia|]; now apply N in Hj.
      * right; split; [lia|]; split.
        -- replace (Z.to_nat (JS.lastIndexOf_from (i + 1) i c s - i))
             with (S (Z.to_nat (JS.lastIndexOf_from (i + 1) i c s - (i + 1))))
             by lia.
           exact H2.
        -- intros [|j] Hj; [lia|]; apply H3 in Hj; lia.
    + destruct (IH (i + 1) found ltac:(lia)) as [[E N]|[H1 [H2 H3]]].
      * left; split; [exact E|].
        intros [|j]; [cbn; congruence | apply N].
      * right; split; [lia|]; split.
        -- replace (Z.to_nat (JS.lastIndexOf_from (i + 1) found c s - i))
             with (S (Z.to_nat
                        (JS.lastIndexOf_from (i + 1) found c s - (i + 1))))
             by lia.
           exact H2.
        -- intros [|j] Hj; [cbn in Hj; congruence|]; apply H3 in Hj; lia.
Qed.

Lemma lastIndexOf_found (c : Z) (s : jsstring) :
  0 <= JS.lastIndexOf c s ->
  nth_error s (Z.to_nat (JS.lastIndexOf c s)) = Some c.
Proof.
  intros H; unfold JS.lastIndexOf in *.
  destruct (lastIndexOf_from_spec c s 0 (-1) ltac:(lia)) as [[E _]|[_ [H2 _]]];
    [lia|].
  now rewrite Z.sub_0_r in H2.
Qed.

Lemma lastIndexOf_last (c : Z) (s : jsstring) (j : nat) :
  nth_error s j = Some c -> Z.of_nat j <= JS.lastIndexOf c s.
Proof.
  intros H; unfold JS.lastIndexOf.
  destruct (lastIndexOf_from_spec c s 0 (-1) ltac:(lia)) as [[_ N]|[_ [_ H3]]].
  - now apply N in H.
  - now apply H3 in H.
Qed.

Lemma ss_white_is_space (b : bool) (s : jsstring) (j : nat) (a : Z) :
  single_spaced_from b s = true -> nth_error s j = Some a ->
  JS.isWhiteSpace a = true -> a = 32.
Proof.
  revert b j; induction s as [|c s IH]; intros b j H Hj Ha;
    [destruct j; discriminate|].
  cbn [single_spaced_from] in H.
  destruct j as [|j]; cbn [nth_error] in Hj.
  - injection Hj as ->; rewrite Ha in H.
    apply andb_true_iff in H; destruct H as [H _].
    apply andb_true_iff in H; destruct H as [H _]; lia.
  - destruct (JS.isWhiteSpace c).
    + apply andb_true_iff in H; destruct H as [_ H]; eapply IH; eassumption.
    + eapply IH; eassumption.
Qed.

Lemma ss_no_adjacent (b : bool) (s : jsstring) (j : nat) (a a' : Z) :
  single_spaced_from b s = true ->
  nth_error s j = Some a -> nth_error s (S j) = Some a' ->
  JS.isWhiteSpace a = true -> JS.isWhiteSpace a' = false.
Proof.
  revert b j; induction s as [|c s IH]; intros b j H Hj Hj' Ha;
    [destruct j; discriminate|].
  cbn [single_spaced_from] in H.
  destruct j as [|j]; cbn [nth_error] in Hj.
  - injection Hj as ->; rewrite Ha in H.
    apply andb_true_iff in H; destruct H as [_ H].
    destruct s as [|c' s]; [discriminate|].
    cbn [nth_error] in Hj'; injection Hj' as ->.
    cbn [single_spaced_from] in H.
    destruct (JS.isWhiteSpace a'); [|reflexivity].
    rewrite andb_false_r in H; discriminate.
  - change (nth_error (c :: s) (S (S j))) with (nth_error s (S j)) in Hj'.
    destruct (JS.isWhiteSpace c).
    + apply andb_true_iff in H; destruct H as [_ H]; eapply IH; eassumption.
    + eapply IH; eassumption.
Qed.

Lemma last_firstn (x : jsstring) (n : nat) (d a : Z) :
  nth_error x n = Some a -> last (firstn (S n) x) d = a.
Proof.
  revert n; induction x as [|c x IH]; intros n H; [destruct n; discriminate|].
  destruct n as [|n]; cbn [nth_error] in H.
  - injection H as ->; now destruct x.
  - specialize (IH n H).
    destruct x as [|c' x]; [destruct n; discriminate|].
    change (firstn (S (S n)) (c :: c' :: x))
      with (c :: firstn (S n) (c' :: x)).
    change (firstn (S n) (c' :: x)) with (c' :: firstn n x) in *.
    exact IH.
Qed.

Lemma firstn_is_trimmed (x : jsstring) (n : nat) (a : Z) :
  is_trimmed x = true -> nth_error x n = Some a ->
  JS.isWhiteSpace a = false -> is_trimmed (firstn (S n) x) = true.
Proof.
  intros Hx Hn Ha.
  destruct x as [|c x]; [destruct n; discriminate|].
  change (firstn (S n) (c :: x)) with (c :: firstn n x).
  unfold is_trimmed in *.
  change (c :: firstn n x) with (firstn (S n) (c :: x)).
  rewrite (last_firstn _ _ _ _ Hn), Ha.
  apply andb_true_iff in Hx; destruct Hx as [Hx _]; now rewrite Hx.
Qed.

Lemma cut_is_trimmed (x : jsstring) :
  is_trimmed x = true -> single_spaced x = true -> 8000 < JS.length x ->
  7000 < cutPoint x <= 8000
  /\ is_trimmed (JS.substring0 (cutPoint x) x) = true.
Proof.
  intros Ht Hs Hl.
  pose proof (cutPoint_bound x) as Hb.
  unfold cutPoint, JS.substring0 in *.
  set (t := firstn (Z.to_nat 8000) x) in *.
  assert (Ht_len : JS.length t = 8000).
  { unfold JS.length, t in *; rewrite length_firstn; lia. }
  assert (Hnth : forall j, (j < Z.to_nat 8000)%nat ->
                           nth_error t j = nth_error x j).
  { intros j Hj; unfold t; rewrite nth_error_firstn.
    destruct (Nat.ltb_spec j (Z.to_nat 8000)); [reflexivity | lia]. }
  pose proof (lastIndexOf_bound FULL_STOP t) as Bp.
  pose proof (lastIndexOf_bound 32 t) as Bs.
  assert (Hsome : forall j, (j < Z.to_nat 8000)%nat ->
                            exists a, nth_error x j = Some a).
  { intros j Hj; destruct (nth_error x j) as [a|] eqn:E; [now exists a|].
    apply nth_error_None in E; unfold JS.length in Hl; lia. }
  destruct (Z.ltb_spec 7000 (JS.lastIndexOf FULL_STOP t)) as [Hp|Hp].
  - split; [lia|].
    replace (Z.to_nat (JS.lastIndexOf FULL_STOP t + 1))
      with (S (Z.to_nat (JS.lastIndexOf FULL_STOP t))) by lia.
    apply (firstn_is_trimmed _ _ FULL_STOP); [exact Ht| |reflexivity].
    rewrite <- Hnth by lia; apply lastIndexOf_found; lia.
  - destruct (Z.ltb_spec 7000 (JS.lastIndexOf 32 t)) as [Hsp|Hsp].
    + split; [lia|].
      set (ls := JS.lastIndexOf 32 t) in *.
      replace (Z.to_nat ls) with (S (Z.to_nat (ls - 1))) by lia.
      destruct (Hsome (Z.to_nat (ls - 1)) ltac:(lia)) as [a Ha].
      apply (firstn_is_trimmed _ _ a); [exact Ht|exact Ha|].
      destruct (JS.isWhiteSpace a) eqn:Ea; [exfalso|reflexivity].
      assert (E : JS.isWhiteSpace 32 = false); [|discriminate E].
      apply (ss_no_adjacent false x (Z.to_nat (ls - 1)) a 32);
        try assumption.
      replace (S (Z.to_nat (ls - 1))) with (Z.to_nat ls) by lia.
      rewrite <- Hnth by lia; apply lastIndexOf_found; lia.
    + split; [lia|].
      replace (Z.to_nat 8000) with (S (Z.to_nat 7999)) by lia.
      destruct (Hsome (Z.to_nat 7999) ltac:(lia)) as [a Ha].
      apply (firstn_is_trimmed _ _ a); [exact Ht|exact Ha|].
      destruct (JS.isWhiteSpace a) eqn:Ea; [exfalso|reflexivity].
      pose proof (ss_white_is_space false x _ a Hs Ha Ea) as ->.
      rewrite <- Hnth in Ha by lia.
      apply lastIndexOf_last in Ha; lia.
Qed.

(** X17. A text of more than 8000 code units is cut to its first [n]
    code units for some [n] above 7000 and at most 8000, and the [trim]
    that follows the cut removes nothing; a text of at most 8000 is
    returned whole. *)
Theorem long_text_cut :
  forall (subtitles : list json) (texts : list jsstring),
    subtitles <> [] ->
    map_texts subtitles = Returns texts ->
    (JS.length (formattedText texts) <= 8000 ->
     formatSubtitlesForAI (Some (JArray subtitles))
     = Returns (formattedText texts))
    /\ (8000 < JS.length (formattedText texts) ->
        exists n : Z,
          7000 < n <= 8000
          /\ formatSubtitlesForAI (Some (JArray subtitles))
             = Returns (JS.substring0 n (formattedText texts))
          /\ JS.length (JS.substring0 n (formattedText texts)) = n).
Proof.
  intros subtitles texts Hne Hmap.
  assert (E : formatSubtitlesForAI (Some (JArray subtitles))
              = Returns (truncate (formattedText texts))).
  { unfold formatSubtitlesForAI.
    destruct subtitles as [|first rest]; [contradiction|].
    now rewrite Hmap, format_texts_steps. }
  rewrite E; clear E; unfold truncate; split; intros Hl.
  - destruct (Z.leb_spec (JS.length (formattedText texts)) 8000);
      [reflexivity | lia].
  - destruct (Z.leb_spec (JS.length (formattedText texts)) 8000); [lia|].
    destruct (cut_is_trimmed (formattedText texts)) as [Hn Ht];
      [apply trim_is_trimmed
      |unfold formattedText; apply (ss_trim _ false), ss_collapse
      |exact Hl|].
    exists (cutPoint (formattedText texts)); split; [exact Hn|]; split.
    + now rewrite (trim_fixed _ Ht).
    + unfold JS.substring0, JS.length in *; rewrite length_firstn; lia.
Qed.

Lemma long_text_cut_witness :
  formatSubtitlesForAI (Some (JArray spoken))
  = Returns (formattedText spoken_texts).
Proof.
  refine (proj1 (long_text_cut spoken spoken_texts _ _) _).
  - discriminate.
  - vm_compute; reflexivity.
  - vm_compute; discriminate.
Defined.

(** ** Subtitles without text *)

Lemma map_texts_without_text (subtitles : list json) :
  forallb without_text subtitles = true ->
  exists texts, map_texts subtitles = Returns texts
                /\ filter (fun text => 0 <? JS.length text) texts = [].
Proof.
  induction subtitles as [|s rest IH]; intros H; [now exists []|].
  cbn [forallb] in H; apply andb_true_iff in H; destruct H as [H1 H2].
  destruct (IH H2) as [texts [E F]].
  unfold without_text in H1; cbn [map_texts]; rewrite E.
  destruct (subtitle_text s) as [[|c text]|e]; try discriminate.
  exists ([] :: texts); split; [reflexivity | exact F].
Qed.

(** X18. A non-empty array of subtitles none of which has a text (the
    three properties missing, empty or white space only) is no error: the
    call returns the empty string. *)
Theorem no_text_gives_empty :
  forall (subtitles : list json),
    subtitles <> [] ->
    forallb without_text subtitles = true ->
    formatSubtitlesForAI (Some (JArray subtitles)) = Returns [].
Proof.
  intros subtitles Hne H.
  destruct (map_texts_without_text subtitles H) as [texts [E F]].
  unfold formatSubtitlesForAI.
  destruct subtitles as [|first rest]; [contradiction|].
  rewrite E; unfold format_texts; now rewrite F.
Qed.

Lemma no_text_gives_empty_witness :
  formatSubtitlesForAI (Some (JArray blank_subtitles)) = Returns [].
Proof.
  apply (no_text_gives_empty blank_subtitles).
  - discriminate.
  - vm_compute; reflexivity.
Defined.

(** ** A text that is formatted already *)

Lemma collapse_fixed (b : bool) (s : jsstring) :
  single_spaced_from b s = true -> JS.collapse_from b s = s.
Proof.
  revert b; induction s as [|c s IH]; intros b H; [reflexivity|].
  cbn [single_spaced_from] in H; cbn [JS.collapse_from].
  destruct (JS.isWhiteSpace c).
  - apply andb_true_iff in H; destruct H as [H H3].
    apply andb_true_iff in H; destruct H as [H1 H2].
    apply negb_true_iff in H2; subst b.
    apply Z.eqb_eq in H1; subst c; now rewrite (IH true H3).
  - now rewrite (IH false H).
Qed.

(** X19. The texts [formatSubtitlesForAI] returns are its fixed points:
    a single subtitle whose text has no white space at its ends, no
    white space but single spaces, and at most 8000 code units comes
    back as it is. *)
Theorem formatted_text_unchanged :
  forall (text : jsstring),
    is_trimmed text = true ->
    single_spaced text = true ->
    JS.length text <= 8000 ->
    formatSubtitlesForAI (Some (JArray [subtitle_of text])) = Returns text.
Proof.
  intros text Ht Hs Hl.
  unfold formatSubtitlesForAI, subtitle_of.
  destruct text as [|c text]; [vm_compute; reflexivity|].
  assert (E : map_texts [JObject [prop "text" (JString (c :: text))]]
              = Returns [c :: text]).
  { cbn [map_texts subtitle_text first_truthy].
    unfold first_truthy.
    replace (get (JObject [prop "text" (JString (c :: text))])
               (field "text"))
      with (Some (JString (c :: text)))
      by (unfold get, field, prop; cbn [JS.own]; now rewrite eqb_refl).
    cbn [or_else truthy_opt truthy JS.eqb negb].
    now rewrite (trim_fixed _ Ht). }
  rewrite E; unfold format_texts.
  cbn [filter].
  replace (0 <? JS.length (c :: text)) with true
    by (symmetry; apply Z.ltb_lt; unfold JS.length; cbn [List.length]; lia).
  cbn [drop_repeats fold_left merge_short JS.join_sp].
  unfold JS.collapseWhiteSpace; rewrite (collapse_fixed _ _ Hs).
  rewrite (trim_fixed _ Ht).
  destruct (Z.leb_spec (JS.length (c :: text)) 8000); [reflexivity | lia].
Qed.

Lemma formatted_text_unchanged_witness :
  formatSubtitlesForAI (Some (JArray [subtitle_of (js "hello world")]))
  = Returns (js "hello world").
Proof.
  apply (formatted_text_unchanged (js "hello world")).
  - vm_compute; reflexivity.
  - vm_compute; reflexivity.
  - vm_compute; discriminate.
Defined.

Lemma formatted_text_single_spaced_witness :
  single_spaced (js "a b") = true.
Proof.
  apply (formatted_text_single_spaced
           (Some (JArray [subtitle_of (js " a   b ")])) (js "a b")).
  vm_compute; reflexivity.
Defined.

(** ** The captured subtitle URL *)

Lemma onMessage_format (subtitles : option json)
    (captured : option jsstring) :
  onMessage (js "formatSubtitles") subtitles captured
  = match formatSubtitlesForAI subtitles with
    | Throws e => Throws e
    | Returns formatted => Returns (captured, [Formatted formatted])
    end.
Proof.
  unfold onMessage; decide_keys.
  now destruct (formatSubtitlesForAI subtitles).
Qed.

Lemma onMessage_other (action : jsstring) (subtitles : option json)
    (captured : option jsstring) :
  JS.eqb action (js "formatSubtitles") = false ->
  onMessage action subtitles captured
  = Returns
      (if JS.eqb action (js "clearCapturedSubtitleUrl") then None
       else captured,
       (if JS.eqb action (js "getCapturedSubtitleUrl")
        then [CapturedUrl captured] else [])
       ++ (if JS.eqb action (js "clearCapturedSubtitleUrl")
           then [Success] else [])).
Proof.
  intros E; unfold onMessage; rewrite E.
  destruct (JS.eqb action (js "getCapturedSubtitleUrl"));
    destruct (JS.eqb action (js "clearCapturedSubtitleUrl")); reflexivity.
Qed.

Lemma handle_latest (captured : option jsstring) (e : event)
    (older : list event) :
  captured = latest older -> handle captured e = latest (e :: older).
Proof.
  intros ->; destruct e as [details_url parsed|action subtitles];
    cbn [handle latest].
  - unfold onBeforeRequest, accepted.
    destruct (JS.eqb (hostname parsed) (js "www.youtube.com")
              && JS.eqb (pathname parsed) (js "/api/timedtext"));
      [|reflexivity].
    now destruct (has (js "pot") (searchParams parsed)).
  - destruct (JS.eqb action (js "formatSubtitles")) eqn:E.
    + apply eqb_eq in E; subst action; rewrite onMessage_format.
      decide_keys; now destruct (formatSubtitlesForAI subtitles).
    + rewrite (onMessage_other _ _ _ E).
      now destruct (JS.eqb action (js "clearCapturedSubtitleUrl")).
Qed.

Lemma run_latest (history : list event) :
  fold_left handle history None = latest (rev history).
Proof.
  induction history as [|e history IH] using rev_ind; [reflexivity|].
  rewrite fold_left_app, rev_app_distr; cbn [fold_left rev app].
  now apply handle_latest.
Qed.

(** X20. Whatever requests and messages came before, a
    [getCapturedSubtitleUrl] message is answered once, with the URL of
    the last accepted request if no [clearCapturedSubtitleUrl] message
    came after it, and with [null] otherwise; requests to another host or
    path or without the [pot] parameter, and all other messages, count for
    nothing, also a message on which the listener throws. *)
Theorem captured_url_is_latest :
  forall (history : list event) (subtitles : option json),
    onMessage (js "getCapturedSubtitleUrl") subtitles
      (fold_left handle history None)
    = Returns (latest (rev history), [CapturedUrl (latest (rev history))]).
Proof.
  intros history subtitles; rewrite run_latest.
  rewrite onMessage_other by (vm_compute; reflexivity).
  decide_keys; reflexivity.
Qed.

(** X21. A message is answered at most once. The listener throws
    exactly on a [formatSubtitles] message on which
    [formatSubtitlesForAI] throws, with what it throws: then nothing is
    sent in response; when it returns, the response carries the formatted
    text. *)
Theorem message_answered_once :
  forall (action : jsstring) (subtitles : option json)
         (captured : option jsstring),
    (forall captured' sent,
        onMessage action subtitles captured = Returns (captured', sent) ->
        (List.length sent <= 1)%nat)
    /\ (forall e,
          onMessage action subtitles captured = Throws e ->
          action = js "formatSubtitles"
          /\ formatSubtitlesForAI subtitles = Throws e)
    /\ (action = js "formatSubtitles" ->
        forall formatted,
          formatSubtitlesForAI subtitles = Returns formatted ->
          onMessage action subtitles captured
          = Returns (captured, [Formatted formatted]))
    /\ (action = js "formatSubtitles" ->
        forall e,
          formatSubtitlesForAI subtitles = Throws e ->
          onMessage action subtitles captured = Throws e).
Proof.
  intros action subtitles captured.
  destruct (JS.eqb action (js "formatSubtitles")) eqn:E.
  - apply eqb_eq in E; subst action; rewrite onMessage_format.
    destruct (formatSubtitlesForAI subtitles) as [t|e].
    + split; [|split; [|split]].
      * intros captured' sent H; injection H as _ <-; cbn; lia.
      * discriminate.
      * intros _ formatted H; now injection H as <-.
      * discriminate.
    + split; [discriminate|split; [|split]].
      * intros e' H; injection H as <-; now split.
      * discriminate.
      * intros _ e' H; now injection H as <-.
  - rewrite (onMessage_other _ _ _ E); split; [|split; [|split]].
    + intros captured' sent H; injection H as _ <-.
      destruct (JS.eqb action (js "getCapturedSubtitleUrl")) eqn:E1.
      * apply eqb_eq in E1; subst action; decide_keys; cbn; lia.
      * destruct (JS.eqb action (js "clearCapturedSubtitleUrl")); cbn; lia.
    + discriminate.
    + intros ->; revert E; decide_keys; discriminate.
    + intros ->; revert E; decide_keys; discriminate.
Qed.

Lemma message_answered_once_witness :
  onMessage (js "formatSubtitles")
    (Some (JArray [subtitle_of (js " a   b ")])) None
  = Returns (None, [Formatted (js "a b")])
  /\ onMessage (js "formatSubtitles") (Some (JArray [])) None
     = Throws (Error SUBTITLES_EMPTY).
Proof.
  split.
  - refine (proj1 (proj2 (proj2 (message_answered_once (js "formatSubtitles")
                                   (Some (JArray [subtitle_of (js " a   b ")]))
                                   None)))
              _ (js "a b") _).
    + reflexivity.
    + vm_compute; reflexivity.
  - refine (proj2 (proj2 (proj2 (message_answered_once (js "formatSubtitles")
                                   (Some (JArray [])) None)))
              _ (Error SUBTITLES_EMPTY) _).
    + reflexivity.
    + vm_compute; reflexivity.
Defined.

(** ** Fenced responses *)

Lemma startsWith_fence (c : Z) (s : jsstring) :
  negb (c =? 96) = true ->
  JS.startsWith (c :: s) ResponseParser.FENCE = false.
Proof.
  intros H; apply negb_true_iff in H.
  unfold ResponseParser.FENCE; cbn [JS.startsWith]; now rewrite H.
Qed.

Lemma remove_opening_plain (s : jsstring) (before : option Z) :
  no_backtick s = true -> ResponseParser.remove_opening before O s = s.
Proof.
  revert before; induction s as [|c s IH]; intros before H; [reflexivity|].
  cbn [no_backtick forallb] in H; apply andb_true_iff in H.
  destruct H as [H1 H2].
  cbn [ResponseParser.remove_opening].
  rewrite (startsWith_fence _ _ H1), andb_false_r.
  now rewrite (IH _ H2).
Qed.

Lemma remove_closing_plain (s : jsstring) :
  no_backtick s = true -> ResponseParser.remove_closing O s = s.
Proof.
  induction s as [|c s IH]; intros H; [reflexivity|].
  cbn [no_backtick forallb] in H; apply andb_true_iff in H.
  destruct H as [H1 H2].
  cbn [ResponseParser.remove_closing].
  rewrite (startsWith_fence _ _ H1); cbn [andb].
  now rewrite (IH H2).
Qed.

Lemma remove_closing_end (s : jsstring) :
  no_backtick s = true ->
  ResponseParser.remove_closing O (s ++ ResponseParser.FENCE) = s.
Proof.
  induction s as [|c s IH]; intros H; [reflexivity|].
  cbn [no_backtick forallb] in H; apply andb_true_iff in H.
  destruct H as [H1 H2].
  cbn [app ResponseParser.remove_closing].
  rewrite (startsWith_fence _ _ H1); cbn [andb].
  now rewrite (IH H2).
Qed.

Lemma remove_opening_end (s : jsstring) (before : option Z) :
  no_backtick s = true ->
  ResponseParser.remove_opening before O (s ++ ResponseParser.FENCE)
  = s ++ (if ResponseParser.at_line_start (last_before before s)
          then [] else ResponseParser.FENCE).
Proof.
  revert before; induction s as [|c s IH]; intros before H.
  - cbn [app last_before fold_left].
    destruct (ResponseParser.at_line_start before) eqn:E.
    + unfold ResponseParser.FENCE; cbn; now rewrite E.
    + unfold ResponseParser.FENCE; cbn; now rewrite E.
  - cbn [no_backtick forallb] in H; apply andb_true_iff in H.
    destruct H as [H1 H2].
    cbn [app ResponseParser.remove_opening].
    rewrite (startsWith_fence _ _ H1), andb_false_r.
    now rewrite (IH _ H2).
Qed.

Lemma tag_length_word (tag rest : jsstring) :
  word tag = true ->
  ResponseParser.tag_length (tag ++ 10 :: rest) = S (List.length tag).
Proof.
  induction tag as [|c tag IH]; intros H; [reflexivity|].
  cbn [word forallb] in H; apply andb_true_iff in H; destruct H as [H1 H2].
  cbn [app ResponseParser.tag_length List.length]; rewrite H1.
  now rewrite (IH H2).
Qed.

Lemma remove_opening_skip (pre : jsstring) (c : Z) (rest : jsstring)
    (before : option Z) :
  ResponseParser.remove_opening before (S (List.length pre))
    (pre ++ c :: rest)
  = ResponseParser.remove_opening (Some c) O rest.
Proof.
  revert before; induction pre as [|d pre IH]; intros before.
  - cbn [app List.length ResponseParser.remove_opening]; reflexivity.
  - cbn [app List.length ResponseParser.remove_opening]; apply IH.
Qed.

(** X22. A response without a backtick is trimmed and nothing else. *)
Theorem plain_response_trimmed :
  forall (content : jsstring),
    no_backtick content = true ->
    ResponseParser.cleanMindmapResponse content = JS.trim content.
Proof.
  intros content H; unfold ResponseParser.cleanMindmapResponse.
  destruct content as [|c content]; [reflexivity|].
  cbn [str_truthy JS.eqb negb].
  now rewrite (remove_opening_plain _ _ H), (remove_closing_plain _ H).
Qed.

Lemma plain_response_trimmed_witness :
  ResponseParser.cleanMindmapResponse (js " - a ") = js "- a".
Proof.
  refine (eq_trans (plain_response_trimmed (js " - a ") _) _);
    vm_compute; reflexivity.
Defined.

(** X23. A response that is one fenced block comes back as the trimmed
    text inside: the fence opens the response, a tag of word characters
    (or none) and a newline follow it, and the text, which has no
    backtick, runs up to the closing fence, on a line of its own or
    not. *)
Theorem fenced_response_unwrapped :
  forall (tag body : jsstring),
    word tag = true ->
    no_backtick body = true ->
    ResponseParser.cleanMindmapResponse (fenced tag body) = JS.trim body.
Proof.
  intros tag body Ht Hb; unfold ResponseParser.cleanMindmapResponse.
  change (fenced tag body)
    with (96 :: 96 :: 96 :: tag ++ 10 :: body ++ ResponseParser.FENCE).
  cbn [str_truthy JS.eqb negb].
  assert (E : ResponseParser.remove_opening None O
                (96 :: 96 :: 96 :: tag ++ 10 :: body ++ ResponseParser.FENCE)
              = ResponseParser.remove_opening (Some 10) O
                  (body ++ ResponseParser.FENCE)).
  { cbn [ResponseParser.remove_opening ResponseParser.at_line_start andb].
    unfold ResponseParser.FENCE at 1.
    cbn [JS.startsWith Z.eqb Pos.eqb andb skipn].
    rewrite (tag_length_word _ _ Ht).
    exact (remove_opening_skip (96 :: 96 :: tag) 10
             (body ++ ResponseParser.FENCE) (Some 96)). }
  rewrite E, (remove_opening_end _ _ Hb).
  destruct (ResponseParser.at_line_start (last_before (Some 10) body)).
  - now rewrite app_nil_r, (remove_closing_plain _ Hb).
  - now rewrite (remove_closing_end _ Hb).
Qed.

Lemma fenced_response_unwrapped_witness :
  ResponseParser.cleanMindmapResponse
    (fenced (js "markdown") (js "# a" ++ [10]))
  = js "# a".
Proof.
  refine (eq_trans
            (fenced_response_unwrapped (js "markdown") (js "# a" ++ [10])
               _ _) _);
    vm_compute; reflexivity.
Defined.

(** ** The two formatters *)

(** X24. The formatter of the background script is the formatter of the
    content script with three steps added. On a non-empty array from
    which both read the same texts, none of them repeating the one
    before, the background script returns what the content script
    returns with its white space collapsed, trimmed and cut to 8000. *)
Theorem formatters_agree :
  forall (subtitles : list json) (texts : list jsstring),
    subtitles <> [] ->
    AIService.map_texts subtitles = Returns texts ->
    map_texts subtitles = Returns texts ->
    no_repeat (filter (fun text => 0 <? JS.length text) texts) = true ->
    exists text,
      AIService.formatSubtitlesForAI (Some (JArray subtitles))
      = Returns text
      /\ formatSubtitlesForAI (Some (JArray subtitles))
         = Returns (truncate (JS.trim (JS.collapseWhiteSpace text))).
Proof.
  intros subtitles texts Hne Hs Hb Hr.
  unfold AIService.formatSubtitlesForAI, formatSubtitlesForAI.
  destruct subtitles as [|first rest]; [contradiction|].
  rewrite Hs, Hb; eexists; split; [reflexivity|].
  rewrite format_texts_steps; unfold formattedText, kept_texts.
  rewrite (drop_repeats_fixed _ _ Hr).
  pose proof (join_sp_reduce
                (filter (fun text => 0 <? JS.length text) texts) [] []) as E.
  rewrite !app_nil_r in E; cbn [app] in E; now rewrite E.
Qed.

Lemma formatters_agree_witness :
  exists text,
    AIService.formatSubtitlesForAI (Some (JArray spoken)) = Returns text
    /\ formatSubtitlesForAI (Some (JArray spoken))
       = Returns (truncate (JS.trim (JS.collapseWhiteSpace text))).
Proof.
  refine (formatters_agree spoken spoken_texts _ _ _ _).
  - discriminate.
  - vm_compute; reflexivity.
  - vm_compute; reflexivity.
  - vm_compute; reflexivity.
Defined.
